(** * The chat session store and context assembler of mcp-meilisearch

    A shallow embedding of [chat-optimal.ts] (the [/api/chat] handler, its
    module-level [threads] map, the periodic sweep and the two context
    builders) and of [searchNearDocs] from [searchClient.ts].

    Conventions of the embedding:
    - a JavaScript string is a [string]; one character stands for one
      UTF-16 code unit, so [String.length] is [.length] and [str_slice0]
      is [.slice(0, n)];
    - [Date.now()] values are integers (milliseconds), modelled in [Z];
    - the module-level [Map] is an association list in insertion order
      with unique keys, which is the iteration order [Map] guarantees;
    - the two awaited collaborators (the search engine and the language
      model) are functions supplied by the environment; a rejected promise
      is [None];
    - responses, console output and outgoing calls are recorded explicitly;
    - an awaited call settles, resolved or rejected: a call that never
      settles, after which the handler sends nothing, is not modelled. *)

From Stdlib Require Import List String Ascii ZArith Bool Arith Lia.
From Stdlib Require Import DecimalString.
From Stdlib Require DecimalPos DecimalZ.
Import ListNotations.

Local Open Scope string_scope.
Local Open Scope list_scope.

Set Implicit Arguments.

(** ** JavaScript string and array primitives *)

Module Js.

(** [s.slice(0, n)] for a non-negative [n]. *)
Fixpoint str_slice0 (n : nat) (s : string) : string :=
  match n, s with
  | S n', String c s' => String c (str_slice0 n' s')
  | _, _ => EmptyString
  end.

(** [a.slice(-n)]: the last [n] elements, the whole array when shorter. *)
Definition slice_last {A : Type} (n : nat) (a : list A) : list A :=
  skipn (List.length a - n) a.

(** [a.join(sep)]. *)
Definition join (sep : string) (a : list string) : string :=
  String.concat sep a.

(** [a.map((x, i) => f(x, i))], the index starting at [i0]. *)
Fixpoint mapi_from {A B : Type} (f : A -> nat -> B) (i0 : nat) (a : list A)
  : list B :=
  match a with
  | [] => []
  | x :: a' => f x i0 :: mapi_from f (S i0) a'
  end.

Definition mapi {A B : Type} (f : A -> nat -> B) (a : list A) : list B :=
  mapi_from f 0 a.

(** Interpolation of a number in a template literal. *)
Definition nat_to_string (n : nat) : string :=
  NilZero.string_of_uint (Nat.to_uint n).

Definition num_to_string (z : Z) : string :=
  NilZero.string_of_int (Z.to_int z).

(** The line feed and the double quote of the template literals. *)
Definition nl : string := String (ascii_of_nat 10) EmptyString.
Definition dq : string := String (ascii_of_nat 34) EmptyString.

(** Truthiness of a string: only the empty string is falsy. *)
Definition truthy (s : string) : bool :=
  negb (s =? EmptyString).

(** Truthiness of a possibly [undefined] string. *)
Definition truthy_opt (o : option string) : bool :=
  match o with
  | Some s => truthy s
  | None => false
  end.

(** [a || b] on possibly [undefined] strings. *)
Definition or_else (a b : option string) : option string :=
  if truthy_opt a then a else b.

End Js.

(** ** The JavaScript [Map] with string keys

    Insertion-ordered: [set] on a present key keeps its position and
    replaces the value, [set] on a new key appends. *)

Module JsMap.
Section WithValue.

Variable V : Type.

Definition t := list (string * V).

Definition empty : t := [].

Fixpoint get (k : string) (m : t) : option V :=
  match m with
  | [] => None
  | (k', v) :: m' => if k' =? k then Some v else get k m'
  end.

Definition has (k : string) (m : t) : bool :=
  match get k m with
  | Some _ => true
  | None => false
  end.

Fixpoint set (k : string) (v : V) (m : t) : t :=
  match m with
  | [] => [(k, v)]
  | (k', v') :: m' =>
      if k' =? k then (k, v) :: m' else (k', v') :: set k v m'
  end.

Definition delete (k : string) (m : t) : t :=
  filter (fun p => negb (fst p =? k)) m.

Definition size (m : t) : nat := List.length m.

Definition keys (m : t) : list string := map fst m.

(** [m.keys().next().value]: [undefined] on the empty map. *)
Definition first_key (m : t) : option string :=
  match m with
  | [] => None
  | (k, _) :: _ => Some k
  end.

(** The representation invariant of a [Map]: no key occurs twice. *)
Definition wf (m : t) : Prop := NoDup (keys m).

End WithValue.
End JsMap.

(** ** Data model of [chat-optimal.ts] and [searchClient.ts] *)

Inductive Role : Type := user | assistant.

Definition role_to_string (r : Role) : string :=
  match r with
  | user => "user"
  | assistant => "assistant"
  end.

Record HistoryEntry : Type := mkEntry {
  role : Role;
  text : string
}.

Record ThreadData : Type := mkThread {
  entries : list HistoryEntry;
  lastAccess : Z
}.

Record SearchResult : Type := mkResult {
  title : string;
  content : string;
  path : string
}.

Definition Store := JsMap.t ThreadData.

Definition MAX_HISTORY_ENTRIES : nat := 4.
Definition MAX_HISTORY_CHAR : nat := 200.
Definition THREAD_TTL_MS : Z := 30 * 60 * 1000.
Definition MAX_CONTENT_LENGTH : nat := 800.

(** The literal capacity in [if (threads.size > 100)]. *)
Definition MAX_THREADS : nat := 100.

(** ** The search gateway, [searchNearDocs] *)

(** The [_formatted] sub-object of a hit. *)
Record Formatted : Type := mkFormatted {
  fmt_content : option string
}.

(** A hit as the engine returns it: every attribute may be missing. *)
Record Hit : Type := mkHit {
  hit_title : option string;
  hit_formatted : option Formatted;
  hit_content : option string;
  hit_path : option string
}.

(** [hit._formatted?.content] *)
Definition formatted_content (h : Hit) : option string :=
  match hit_formatted h with
  | Some f => fmt_content f
  | None => None
  end.

Definition or_default (o : option string) (d : string) : string :=
  match o with
  | Some s => if Js.truthy s then s else d
  | None => d
  end.

(** The arrow function mapped over [results.hits]. *)
Definition hit_to_result (h : Hit) : SearchResult :=
  {| title := or_default (hit_title h) "Untitled";
     content :=
       Js.str_slice0 MAX_CONTENT_LENGTH
         (or_default (Js.or_else (formatted_content h) (hit_content h))
            EmptyString);
     path := or_default (hit_path h) EmptyString |}.

(** The engine: query and limit to the hits, [None] when the call rejects. *)
Definition Engine := string -> nat -> option (list Hit).

Definition searchNearDocs (index_search : Engine) (query : string)
  : option (list SearchResult) :=
  match index_search query 5 with
  | Some hits => Some (map hit_to_result hits)
  | None => None
  end.

(** ** The periodic sweep, [cleanExpiredThreads] *)

Definition expired (now : Z) (thread : ThreadData) : bool :=
  (now - lastAccess thread >? THREAD_TTL_MS)%Z.

(** The body of the [for ... of threads] loop for one visited pair. *)
Definition sweep_step (now : Z) (threads : Store) (kv : string * ThreadData)
  : Store :=
  if expired now (snd kv) then JsMap.delete (fst kv) threads else threads.

(** Every pair of the map is visited once; deleting the visited pair does
    not disturb the iteration, so the loop is a fold over the pairs. *)
Definition cleanExpiredThreads (now : Z) (threads : Store) : unit * Store :=
  (tt, fold_left (sweep_step now) threads threads).

(** ** The context assembler *)

Import Js(nl, dq).

(** The template literal of one [<doc>] element; [i] is the array index. *)
Definition doc_block (r : SearchResult) (i : nat) : string :=
  "<doc index=" ++ dq ++ Js.nat_to_string (i + 1) ++ dq ++ ">" ++ nl
  ++ "<title>" ++ title r ++ "</title>" ++ nl
  ++ "<path>" ++ path r ++ "</path>" ++ nl
  ++ "<content>" ++ content r ++ "</content>" ++ nl
  ++ "</doc>".

Definition NO_DOCUMENTS : string := "No documents found for this query.".

Definition buildSearchContext (results : list SearchResult) : string :=
  if (List.length results =? 0)%nat then
    "<search_results>" ++ nl ++ NO_DOCUMENTS ++ nl ++ "</search_results>"
  else
    let docs := Js.join nl (Js.mapi doc_block results) in
    "<search_results>" ++ nl ++ docs ++ nl ++ "</search_results>".

(** The arrow function mapped over the recent entries. *)
Definition history_line (entry : HistoryEntry) : string :=
  role_to_string (role entry) ++ ": "
  ++ Js.str_slice0 MAX_HISTORY_CHAR (text entry).

Definition buildHistoryContext (history : list HistoryEntry) : string :=
  if (List.length history =? 0)%nat then EmptyString
  else
    let recent := Js.slice_last MAX_HISTORY_ENTRIES history in
    let lines := map history_line recent in
    "<conversation_history>" ++ nl ++ Js.join nl lines ++ nl
    ++ "</conversation_history>" ++ nl ++ nl.

(** ** The chat handler *)

(** A request body that [express.json()] parsed into an object,
    [{ messages, threadId }] as the endpoint types it: both fields are
    strings when present; [None] is an absent field.  [req.body] itself
    may be [undefined] (no JSON body was parsed); that is the [option Body]
    of [chatHandler_req] below. *)
Record Body : Type := mkBody {
  messages : option string;
  threadId : option string
}.

(** A content block of the model's reply, tagged by its [type]. *)
Inductive ContentBlock : Type :=
  | TextBlock (block_text : string)
  | OtherBlock (block_type : string).

Definition is_text (block : ContentBlock) : bool :=
  match block with
  | TextBlock _ => true
  | OtherBlock _ => false
  end.

(** [anthropic.messages.create] with the fixed model, system prompt and
    sampling settings: the user content to the reply's content blocks,
    [None] when the call rejects. *)
Definition Client := string -> option (list ContentBlock).

(** What the handler reads from outside the store: the module-level
    [anthropic] ([None] when no API key is configured), the search engine,
    and the three readings of [Date.now()] in program order. *)
Record Env : Type := mkEnv {
  anthropic : option Client;
  index_search : Engine;
  now_access : Z;
  now_mint : Z;
  now_put : Z
}.

Record Source : Type := mkSource {
  src_title : string;
  src_path : string
}.

Inductive Payload : Type :=
  | ErrorPayload (error : string)
  | ChatPayload (message : string) (newThreadId : string)
      (sources : list Source).

(** [res.status(s).json(p)]; [res.json(p)] leaves the status at 200. *)
Record Response : Type := mkResponse {
  status : nat;
  payload : Payload
}.

(** Calls that leave the process and console output, in program order. *)
Inductive Event : Type :=
  | SearchCall (query : string)
  | ModelCall (userContent : string)
  | ConsoleLog (search_hits : nat)
  | ConsoleError.

Record Outcome : Type := mkOutcome {
  response : Response;
  threads_after : Store;
  events : list Event
}.

Definition MESSAGE_REQUIRED : string := "Message is required".
Definition NOT_CONFIGURED : string := "Anthropic API key not configured".
Definition FAILED : string := "Failed to process chat request".
Definition NO_RESPONSE : string := "No response generated.".

(** Lines 145-150: the history of the supplied thread, whose [lastAccess]
    is refreshed in place (the record keeps its position in the map). *)
Definition resolve_history (threadId : option string) (now : Z)
    (threads : Store) : list HistoryEntry * Store :=
  match threadId with
  | Some id =>
      if Js.truthy id && JsMap.has id threads then
        match JsMap.get id threads with
        | Some thread =>
            (entries thread,
             JsMap.set id
               {| entries := entries thread; lastAccess := now |} threads)
        | None => ([], threads)
        end
      else ([], threads)
  | None => ([], threads)
  end.

(** [response.content.find(block => block.type === "text")] and the
    fallback string. *)
Definition first_text (blocks : list ContentBlock) : string :=
  match find is_text blocks with
  | Some (TextBlock t) => t
  | _ => NO_RESPONSE
  end.

(** [threadId || `thread_${Date.now()}`] *)
Definition mint_thread_id (threadId : option string) (now : Z) : string :=
  match threadId with
  | Some id => if Js.truthy id then id else "thread_" ++ Js.num_to_string now
  | None => "thread_" ++ Js.num_to_string now
  end.

Definition updated_entries (history : list HistoryEntry)
    (userMessage assistantMessage : string) : list HistoryEntry :=
  Js.slice_last MAX_HISTORY_ENTRIES
    (history ++ [ {| role := user; text := userMessage |};
                  {| role := assistant; text := assistantMessage |} ]).

(** [threads.set(newThreadId, { entries, lastAccess })] *)
Definition put_thread (id : string) (updatedEntries : list HistoryEntry)
    (now : Z) (threads : Store) : Store :=
  JsMap.set id {| entries := updatedEntries; lastAccess := now |} threads.

(** Lines 192-195: the size check after the insert. *)
Definition enforce_capacity (threads : Store) : Store :=
  if (MAX_THREADS <? JsMap.size threads)%nat then
    match JsMap.first_key threads with
    | Some oldestKey =>
        if Js.truthy oldestKey then JsMap.delete oldestKey threads
        else threads
    | None => threads
    end
  else threads.

Definition to_source (r : SearchResult) : Source :=
  {| src_title := title r; src_path := path r |}.

Definition build_sources (searchResults : list SearchResult) : list Source :=
  map to_source (filter (fun r => Js.truthy (path r)) searchResults).

Definition user_content (history : list HistoryEntry)
    (searchResults : list SearchResult) (userMessage : string) : string :=
  buildHistoryContext history ++ buildSearchContext searchResults
  ++ nl ++ nl ++ userMessage.

Definition reply (s : nat) (p : Payload) (threads : Store)
    (evs : list Event) : Outcome :=
  {| response := {| status := s; payload := p |};
     threads_after := threads;
     events := evs |}.

(** The handler from line 133 on, for a [req.body] that is an object: one
    request run to completion, no other request or sweep in between.  A
    rejected await lands in the [catch], which answers 500. *)
Definition chatHandler (env : Env) (body : Body) (threads : Store)
  : Outcome :=
  match messages body with
  | None => reply 400 (ErrorPayload MESSAGE_REQUIRED) threads []
  | Some userMessage =>
      if negb (Js.truthy userMessage) then
        reply 400 (ErrorPayload MESSAGE_REQUIRED) threads []
      else
        match anthropic env with
        | None => reply 500 (ErrorPayload NOT_CONFIGURED) threads []
        | Some client =>
            match searchNearDocs (index_search env) userMessage with
            | None =>
                reply 500 (ErrorPayload FAILED) threads
                  [SearchCall userMessage; ConsoleError]
            | Some searchResults =>
                let (history, threads1) :=
                  resolve_history (threadId body) (now_access env) threads in
                let userContent :=
                  user_content history searchResults userMessage in
                match client userContent with
                | None =>
                    reply 500 (ErrorPayload FAILED) threads1
                      [SearchCall userMessage; ModelCall userContent;
                       ConsoleError]
                | Some blocks =>
                    let assistantMessage := first_text blocks in
                    let newThreadId :=
                      mint_thread_id (threadId body) (now_mint env) in
                    let updatedEntries :=
                      updated_entries history userMessage assistantMessage in
                    let threads2 :=
                      put_thread newThreadId updatedEntries (now_put env)
                        threads1 in
                    let threads3 := enforce_capacity threads2 in
                    reply 200
                      (ChatPayload assistantMessage newThreadId
                         (build_sources searchResults))
                      threads3
                      [SearchCall userMessage; ModelCall userContent;
                       ConsoleLog (List.length searchResults)]
                end
            end
        end
  end.

(** The handler from its first line, on [req.body] as the middleware left
    it.  Line 131 destructures [req.body] inside the [try]: on [undefined]
    that throws before anything else is done, and the [catch] logs the
    error and answers 500. *)
Definition chatHandler_req (env : Env) (req_body : option Body)
    (threads : Store) : Outcome :=
  match req_body with
  | None => reply 500 (ErrorPayload FAILED) threads [ConsoleError]
  | Some body => chatHandler env body threads
  end.

(** ** Reachable stores

    [threads] is private to the module: it starts empty and changes only
    in the sweep and at two places of the handler, each of which runs
    without suspension.  The handler awaits the model between the two, so
    other requests and sweeps may run in between; the atomic steps below
    cover every such interleaving. *)

Inductive step : Store -> Store -> Prop :=
  | step_sweep (now : Z) (t : Store) :
      step t (snd (cleanExpiredThreads now t))
  | step_access (tid : option string) (now : Z) (t : Store) :
      step t (snd (resolve_history tid now t))
  | step_persist (tid : option string) (history : list HistoryEntry)
      (userMessage assistantMessage : string) (mint put : Z) (t : Store) :
      step t
        (enforce_capacity
           (put_thread (mint_thread_id tid mint)
              (updated_entries history userMessage assistantMessage) put t)).

Inductive reachable : Store -> Prop :=
  | reach_init : reachable (JsMap.empty ThreadData)
  | reach_step (t t' : Store) : reachable t -> step t t' -> reachable t'.

(** The entries stored for a session, none when it has no record. *)
Definition stored_history (id : string) (t : Store) : list HistoryEntry :=
  match JsMap.get id t with
  | Some thread => entries thread
  | None => []
  end.

Definition turn_entries (userMessage assistantMessage : string)
  : list HistoryEntry :=
  [ {| role := user; text := userMessage |};
    {| role := assistant; text := assistantMessage |} ].

(** [turns_on id t log t']: from store [t], successful chat turns that
    supply [threadId = id] appended [log] to the session, in this order,
    and left store [t'].  Between turns the store may take any steps that
    keep the session's entries (sweeps that spare it, other sessions'
    requests, accesses). *)
Inductive turns_on (id : string) : Store -> list HistoryEntry -> Store -> Prop :=
  | turns_none (t : Store) : turns_on id t [] t
  | turns_turn (t t1 : Store) (log : list HistoryEntry) (env : Env)
      (userMessage assistantMessage : string) (srcs : list Source) :
      turns_on id t log t1 ->
      response
        (chatHandler env
           {| messages := Some userMessage; threadId := Some id |} t1)
      = {| status := 200;
           payload := ChatPayload assistantMessage id srcs |} ->
      turns_on id t (log ++ turn_entries userMessage assistantMessage)
        (threads_after
           (chatHandler env
              {| messages := Some userMessage; threadId := Some id |} t1))
  | turns_other (t t1 t2 : Store) (log : list HistoryEntry) :
      turns_on id t log t1 ->
      step t1 t2 ->
      option_map entries (JsMap.get id t2)
      = option_map entries (JsMap.get id t1) ->
      turns_on id t log t2.

(** Lines 145-190 on the successful path: the store right after
    [threads.set], before the size check. *)
Definition store_after_insert (env : Env) (body : Body)
    (userMessage assistantMessage : string) (threads : Store) : Store :=
  let (history, threads1) :=
    resolve_history (threadId body) (now_access env) threads in
  put_thread (mint_thread_id (threadId body) (now_mint env))
    (updated_entries history userMessage assistantMessage) (now_put env)
    threads1.

(** The sources of a response as the specification words them: the
    results with a non-empty path, in order, each reduced to its title
    and path. *)
Fixpoint sources_spec (results : list SearchResult) : list Source :=
  match results with
  | [] => []
  | r :: rest =>
      match path r with
      | EmptyString => sources_spec rest
      | String _ _ =>
          {| src_title := title r; src_path := path r |} :: sources_spec rest
      end
  end.

(** ** The invariant of reachable stores *)

(** What holds of every stored pair: the key is a truthy string and the
    history respects the retention cap. *)
Definition thread_ok (kv : string * ThreadData) : Prop :=
  Js.truthy (fst kv) = true
  /\ List.length (entries (snd kv)) <= MAX_HISTORY_ENTRIES.

Record store_inv (t : Store) : Prop := mkInv {
  inv_wf : JsMap.wf t;
  inv_threads : Forall thread_ok t;
  inv_size : JsMap.size t <= MAX_THREADS
}.

(** The records a sweep at [now] keeps. *)
Definition fresh (now : Z) (kv : string * ThreadData) : bool :=
  negb (expired now (snd kv)).

(** What one rendered history line shows of its entry: the role, and a
    prefix of the text of 200 characters at most. *)
Definition shows (entry : HistoryEntry) (line : string) : Prop :=
  exists (shown rest : string),
    line = (role_to_string (role entry) ++ ": " ++ shown)%string
    /\ text entry = (shown ++ rest)%string
    /\ String.length shown = Nat.min 200 (String.length (text entry)).

(** ** Sample inputs *)

Module Sample.

(** A model that always answers with one text block. *)
Definition echo_client : Client := fun _ => Some [TextBlock "ok"].

(** An engine that finds nothing. *)
Definition no_hits : Engine := fun _ _ => Some [].

(** A session written at time 0 and left alone. *)
Definition old_thread : ThreadData :=
  {| entries := turn_entries "hi" "hello"; lastAccess := 0 |}.

Definition old_store : Store := [("s1", old_thread)].

(** A request on that session one millisecond after its time-to-live. *)
Definition late_env : Env :=
  {| anthropic := Some echo_client;
     index_search := no_hits;
     now_access := 1800001;
     now_mint := 1800002;
     now_put := 1800003 |}.

Definition late_body : Body :=
  {| messages := Some "again"; threadId := Some "s1" |}.

(** One successful turn on session [s1]. *)
Definition turn (userMessage : string) (t : Store) : Store :=
  threads_after
    (chatHandler late_env
       {| messages := Some userMessage; threadId := Some "s1" |} t).

Definition three_turns : Store :=
  turn "c" (turn "b" (turn "a" (JsMap.empty ThreadData))).

Definition three_turns_log : list HistoryEntry :=
  (([] ++ turn_entries "a" "ok") ++ turn_entries "b" "ok")
  ++ turn_entries "c" "ok".

(** [fill n]: the store after [n] first turns of distinct sessions
    [t0], [t1], ... *)
Fixpoint fill (n : nat) : Store :=
  match n with
  | O => JsMap.empty ThreadData
  | S n' =>
      enforce_capacity
        (put_thread
           (mint_thread_id (Some ("t" ++ Js.nat_to_string n')%string) 0)
           (updated_entries [] "q" "ok") (Z.of_nat n') (fill n'))
  end.

(** A text of [n] characters. *)
Fixpoint xs (n : nat) : string :=
  match n with
  | O => EmptyString
  | S n' => String "x" (xs n')
  end.

(** A history whose first entry is longer than the display cap. *)
Definition long_history : list HistoryEntry := turn_entries (xs 250) "ok".

Definition long_body : Body :=
  {| messages := Some (xs 250); threadId := Some "s1" |}.

Definition two_results : list SearchResult :=
  [ {| title := "Accounts"; content := "about accounts"; path := "/accounts" |};
    {| title := "Untitled"; content := "loose page"; path := EmptyString |} ].

(** An engine whose first hit has 1000 characters of content and whose
    second hit has a cropped [_formatted] content and no path. *)
Definition long_engine : Engine :=
  fun _ _ =>
    Some [ {| hit_title := Some "Long";
              hit_formatted := None;
              hit_content := Some (xs 1000);
              hit_path := Some "/long" |};
           {| hit_title := None;
              hit_formatted := Some {| fmt_content := Some "cropped" |};
              hit_content := Some "whole";
              hit_path := None |} ].


Definition search_env : Env :=
  {| anthropic := Some echo_client;
     index_search := long_engine;
     now_access := 1;
     now_mint := 2;
     now_put := 3 |}.

(** Three sessions at a sweep at 1800001: one past the time-to-live, one
    exactly at it, one well under it. *)
Definition mixed_store : Store :=
  [ ("old", {| entries := turn_entries "a" "b"; lastAccess := 0 |});
    ("edge", {| entries := turn_entries "c" "d"; lastAccess := 1 |});
    ("new", {| entries := turn_entries "e" "f"; lastAccess := 1000000 |}) ].

Definition new_body : Body :=
  {| messages := Some "q"; threadId := Some "fresh" |}.

End Sample.

(** ** Further notions used to describe the handler *)

(** A decimal digit, as a code unit. *)
Definition is_digit (c : ascii) : bool :=
  (48 <=? nat_of_ascii c)%nat && (nat_of_ascii c <=? 57)%nat.

Fixpoint all_digits (s : string) : bool :=
  match s with
  | EmptyString => true
  | String c s' => is_digit c && all_digits s'
  end.

(** A history whose last two entries are a user message and the
    assistant's reply to it. *)
Definition ends_with_turn (es : list HistoryEntry) : Prop :=
  exists (older : list HistoryEntry) (u a : string),
    es = older ++ turn_entries u a.

(** The source a hit gives rise to, through [hit_to_result] and
    [to_source]. *)
Definition hit_source (h : Hit) : Source :=
  {| src_title := or_default (hit_title h) "Untitled";
     src_path := or_default (hit_path h) EmptyString |}.

(** No block of the list is a text block. *)
Definition no_text (blocks : list ContentBlock) : Prop :=
  forallb (fun b => negb (is_text b)) blocks = true.

Module SampleMore.

(** A configured client whose call rejects. *)
Definition failing_env : Env :=
  {| anthropic := Some (fun _ => None);
     index_search := Sample.no_hits;
     now_access := 1800001;
     now_mint := 1800002;
     now_put := 1800003 |}.

(** A reply with a tool block before its two text blocks. *)
Definition mixed_blocks : list ContentBlock :=
  [OtherBlock "tool_use"; TextBlock "first"; TextBlock "second"].

(** A request without a thread id. *)
Definition anonymous_body : Body :=
  {| messages := Some "again"; threadId := None |}.

(** A store whose only session has the id the next request will mint. *)
Definition clash_store : Store :=
  [("thread_1800002", Sample.old_thread)].

End SampleMore.

(** ** Facts about the primitives *)

Unset Implicit Arguments.

Section JsFacts.

Lemma truthy_true (s : string) : Js.truthy s = true <-> s <> EmptyString.
Proof.
  unfold Js.truthy. rewrite negb_true_iff. apply String.eqb_neq.
Qed.

Lemma truthy_false (s : string) : Js.truthy s = false <-> s = EmptyString.
Proof.
  unfold Js.truthy. rewrite negb_false_iff. apply String.eqb_eq.
Qed.

Lemma str_append_assoc (a b c : string) :
  ((a ++ b) ++ c)%string = (a ++ (b ++ c))%string.
Proof.
  induction a as [|x a IH]; simpl; [reflexivity | now rewrite IH].
Qed.

Lemma str_slice0_length (n : nat) (s : string) :
  String.length (Js.str_slice0 n s) = Nat.min n (String.length s).
Proof.
  revert s. induction n as [|n IH]; intros [|c s]; simpl; auto.
Qed.

Lemma str_slice0_prefix (n : nat) (s : string) :
  exists rest, s = (Js.str_slice0 n s ++ rest)%string.
Proof.
  revert s. induction n as [|n IH]; intros s.
  - exists s. destruct s; reflexivity.
  - destruct s as [|c s].
    + exists EmptyString. reflexivity.
    + destruct (IH s) as [rest Hrest]. exists rest. simpl. now f_equal.
Qed.

Lemma slice_last_length {A : Type} (n : nat) (a : list A) :
  List.length (Js.slice_last n a) = Nat.min n (List.length a).
Proof.
  unfold Js.slice_last. rewrite length_skipn. lia.
Qed.

Lemma slice_last_suffix {A : Type} (n : nat) (a : list A) :
  firstn (List.length a - n) a ++ Js.slice_last n a = a.
Proof.
  unfold Js.slice_last. apply firstn_skipn.
Qed.

Lemma slice_last_all {A : Type} (n : nat) (a : list A) :
  List.length a <= n -> Js.slice_last n a = a.
Proof.
  intros H. unfold Js.slice_last.
  replace (List.length a - n) with 0 by lia. reflexivity.
Qed.

(** Trimming an already trimmed history before appending changes nothing. *)
Lemma slice_last_app_slice {A : Type} (n : nat) (a b : list A) :
  Js.slice_last n (Js.slice_last n a ++ b) = Js.slice_last n (a ++ b).
Proof.
  unfold Js.slice_last.
  rewrite !length_app, length_skipn.
  destruct (Nat.le_gt_cases (List.length a) n) as [Hle|Hgt].
  - replace (List.length a - n) with 0 by lia. simpl.
    now rewrite Nat.sub_0_r.
  - rewrite !skipn_app, length_skipn.
    rewrite skipn_skipn.
    replace (List.length a - (List.length a - n) + List.length b - n
             + (List.length a - n))
      with (List.length a + List.length b - n) by lia.
    f_equal. f_equal. lia.
Qed.

Lemma mapi_from_length {A B : Type} (f : A -> nat -> B) (i0 : nat)
    (a : list A) :
  List.length (Js.mapi_from f i0 a) = List.length a.
Proof.
  revert i0. induction a as [|x a IH]; intros i0; simpl; auto.
Qed.

Lemma mapi_from_nth_error {A B : Type} (f : A -> nat -> B) (a : list A) :
  forall (i0 i : nat) (x : A),
    nth_error a i = Some x ->
    nth_error (Js.mapi_from f i0 a) i = Some (f x (i0 + i)).
Proof.
  induction a as [|y a IH]; intros i0 [|i] x H; simpl in *;
    try discriminate.
  - injection H as ->. now rewrite Nat.add_0_r.
  - rewrite (IH (S i0) i x H). f_equal. f_equal. lia.
Qed.

End JsFacts.

(** ** Facts about the insertion-ordered map *)

Section JsMapFacts.

Variable V : Type.
Implicit Types (m : JsMap.t V) (k : string) (v : V).

Lemma get_none_iff k m : JsMap.get k m = None <-> ~ In k (JsMap.keys m).
Proof.
  induction m as [|[k' v'] m IH]; simpl.
  - tauto.
  - destruct (String.eqb_spec k' k) as [->|Hne].
    + split; [discriminate | intros H; exfalso; apply H; now left].
    + rewrite IH. split; [intros H [E|I]; [now apply Hne | now apply H] | tauto].
Qed.

Lemma get_some_in k v m : JsMap.get k m = Some v -> In (k, v) m.
Proof.
  induction m as [|[k' v'] m IH]; simpl; [discriminate|].
  destruct (String.eqb_spec k' k) as [->|Hne].
  - intros [= ->]. now left.
  - intros H. right. now apply IH.
Qed.

Lemma in_get_some k v m : JsMap.wf m -> In (k, v) m -> JsMap.get k m = Some v.
Proof.
  unfold JsMap.wf.
  induction m as [|[k' v'] m IH]; simpl; [tauto|].
  intros Hnd [E|I]; inversion Hnd as [|? ? Hnotin Hnd']; subst.
  - injection E as -> ->. now rewrite String.eqb_refl.
  - destruct (String.eqb_spec k' k) as [->|Hne].
    + exfalso. apply Hnotin. change k with (fst (k, v)). now apply in_map.
    + now apply IH.
Qed.

Lemma get_set_same k v m : JsMap.get k (JsMap.set k v m) = Some v.
Proof.
  induction m as [|[k' v'] m IH]; simpl.
  - now rewrite String.eqb_refl.
  - destruct (String.eqb_spec k' k) as [->|Hne]; simpl.
    + now rewrite String.eqb_refl.
    + destruct (String.eqb_spec k' k); [contradiction | exact IH].
Qed.

Lemma get_set_other k k' v m :
  k <> k' -> JsMap.get k' (JsMap.set k v m) = JsMap.get k' m.
Proof.
  intros Hne. induction m as [|[k0 v0] m IH]; simpl.
  - destruct (String.eqb_spec k k'); [contradiction | reflexivity].
  - destruct (String.eqb_spec k0 k) as [->|Hne0]; simpl.
    + destruct (String.eqb_spec k k'); [contradiction | reflexivity].
    + destruct (String.eqb_spec k0 k'); [reflexivity | exact IH].
Qed.

(** [set] on a present key replaces the value where it stands. *)
Lemma keys_set_present k v m :
  JsMap.get k m <> None -> JsMap.keys (JsMap.set k v m) = JsMap.keys m.
Proof.
  induction m as [|[k' v'] m IH]; simpl; [congruence|].
  destruct (String.eqb_spec k' k) as [->|Hne]; simpl; intros H.
  - reflexivity.
  - f_equal. now apply IH.
Qed.

(** [set] on a new key appends. *)
Lemma set_absent k v m :
  JsMap.get k m = None -> JsMap.set k v m = m ++ [(k, v)].
Proof.
  induction m as [|[k' v'] m IH]; simpl; [reflexivity|].
  destruct (String.eqb_spec k' k) as [->|Hne]; [discriminate|].
  intros H. f_equal. now apply IH.
Qed.

Lemma size_set_present k v m :
  JsMap.get k m <> None -> JsMap.size (JsMap.set k v m) = JsMap.size m.
Proof.
  intros H. unfold JsMap.size.
  rewrite <- (length_map fst (JsMap.set k v m)), <- (length_map fst m).
  change (List.length (JsMap.keys (JsMap.set k v m))
          = List.length (JsMap.keys m)).
  now rewrite keys_set_present.
Qed.

Lemma size_set_absent k v m :
  JsMap.get k m = None -> JsMap.size (JsMap.set k v m) = S (JsMap.size m).
Proof.
  intros H. rewrite set_absent by exact H. unfold JsMap.size.
  rewrite length_app. simpl. lia.
Qed.

Lemma wf_set k v m : JsMap.wf m -> JsMap.wf (JsMap.set k v m).
Proof.
  unfold JsMap.wf. intros Hwf.
  destruct (JsMap.get k m) as [v0|] eqn:E.
  - rewrite keys_set_present; [exact Hwf | congruence].
  - rewrite set_absent by exact E. unfold JsMap.keys.
    rewrite map_app. simpl.
    apply (proj1 (get_none_iff k m)) in E.
    apply NoDup_app; [exact Hwf | repeat constructor; intros [] |].
    intros a Ha [<-|[]]. now apply E.
Qed.

Lemma keys_delete k m :
  JsMap.keys (JsMap.delete k m)
  = filter (fun k' => negb (k' =? k)%string) (JsMap.keys m).
Proof.
  unfold JsMap.keys, JsMap.delete.
  induction m as [|[k' v'] m IH]; simpl; [reflexivity|].
  destruct (k' =? k)%string; simpl; now rewrite IH.
Qed.

Lemma wf_filter (P : string * V -> bool) m :
  JsMap.wf m -> JsMap.wf (filter P m).
Proof.
  unfold JsMap.wf, JsMap.keys.
  induction m as [|p m IH]; simpl; [auto|].
  intros Hnd. inversion Hnd as [|? ? Hnotin Hnd']; subst.
  destruct (P p); simpl; [|now apply IH].
  constructor; [|now apply IH].
  intros Hin. apply Hnotin.
  apply in_map_iff in Hin. destruct Hin as [q [Hq Hin]].
  apply filter_In in Hin. apply in_map_iff. exists q. tauto.
Qed.

Lemma wf_delete k m : JsMap.wf m -> JsMap.wf (JsMap.delete k m).
Proof. apply wf_filter. Qed.

Lemma get_delete_same k m : JsMap.get k (JsMap.delete k m) = None.
Proof.
  apply get_none_iff. rewrite keys_delete. intros Hin.
  apply filter_In in Hin. destruct Hin as [_ Hin].
  now rewrite String.eqb_refl in Hin.
Qed.

Lemma get_delete_other k k' m :
  k <> k' -> JsMap.get k' (JsMap.delete k m) = JsMap.get k' m.
Proof.
  intros Hne. unfold JsMap.delete.
  induction m as [|[k0 v0] m IH]; simpl; [reflexivity|].
  destruct (String.eqb_spec k0 k) as [->|Hne0]; simpl.
  - destruct (String.eqb_spec k k'); [contradiction | exact IH].
  - destruct (String.eqb_spec k0 k'); [reflexivity | exact IH].
Qed.

(** On a map without duplicate keys, a filter on the pairs is seen by
    [get] as a test on the bound value. *)
Lemma get_filter (P : string * V -> bool) k m :
  JsMap.wf m ->
  JsMap.get k (filter P m)
  = match JsMap.get k m with
    | Some v => if P (k, v) then Some v else None
    | None => None
    end.
Proof.
  unfold JsMap.wf.
  induction m as [|[k0 v0] m IH]; simpl; [reflexivity|].
  intros Hnd. inversion Hnd as [|? ? Hnotin Hnd']; subst.
  destruct (String.eqb_spec k0 k) as [->|Hne].
  - destruct (P (k, v0)) eqn:EP; simpl.
    + now rewrite String.eqb_refl.
    + rewrite IH by assumption.
      now rewrite (proj2 (get_none_iff k m) Hnotin).
  - destruct (P (k0, v0)); simpl.
    + destruct (String.eqb_spec k0 k); [contradiction | now apply IH].
    + now apply IH.
Qed.

(** Deleting the first key of a map drops exactly its first pair. *)
Lemma delete_first k v m :
  JsMap.wf ((k, v) :: m) -> JsMap.delete k ((k, v) :: m) = m.
Proof.
  unfold JsMap.wf, JsMap.delete. simpl. intros Hnd.
  inversion Hnd as [|? ? Hnotin _]; subst.
  rewrite String.eqb_refl. simpl.
  apply forallb_filter_id. apply forallb_forall.
  intros [k' v'] Hin. simpl.
  destruct (String.eqb_spec k' k) as [->|]; [|reflexivity].
  exfalso. apply Hnotin. change k with (fst (k, v')). now apply in_map.
Qed.

End JsMapFacts.

(** ** The sweep as a filter *)

Section SweepFacts.

Lemma filter_filter {A : Type} (P Q : A -> bool) (l : list A) :
  filter P (filter Q l) = filter (fun x => Q x && P x) l.
Proof.
  induction l as [|x l IH]; simpl; [reflexivity|].
  destruct (Q x); simpl; [destruct (P x)|]; now rewrite IH.
Qed.

(** After visiting the pairs [visited], the map has lost the keys that
    were bound to an expired record among them. *)
Lemma sweep_fold (now : Z) (visited acc : Store) :
  fold_left (sweep_step now) visited acc
  = filter
      (fun p =>
         negb (existsb
                 (fun q => (fst p =? fst q)%string && expired now (snd q))
                 visited))
      acc.
Proof.
  revert acc. induction visited as [|q visited IH]; intros acc; simpl.
  - symmetry. apply forallb_filter_id. now apply forallb_forall.
  - rewrite IH. unfold sweep_step.
    destruct (expired now (snd q)) eqn:Eq.
    + unfold JsMap.delete. rewrite filter_filter.
      apply filter_ext. intros p.
      rewrite andb_true_r. now rewrite negb_orb.
    + apply filter_ext. intros p. now rewrite andb_false_r.
Qed.

Lemma sweep_filter (now : Z) (t : Store) :
  JsMap.wf t ->
  snd (cleanExpiredThreads now t) = filter (fresh now) t.
Proof.
  intros Hwf. simpl. rewrite sweep_fold.
  apply filter_ext_in. intros [k th] Hin. unfold fresh. simpl.
  f_equal.
  destruct (expired now th) eqn:Eth.
  - apply existsb_exists. exists (k, th). simpl.
    now rewrite String.eqb_refl, Eth.
  - apply not_true_is_false. intros Hex.
    apply existsb_exists in Hex. destruct Hex as [[k' th'] [Hin' Hq]].
    simpl in Hq. apply andb_true_iff in Hq. destruct Hq as [Hk Hexp].
    apply String.eqb_eq in Hk. subst k'.
    apply in_get_some in Hin; [|exact Hwf].
    apply in_get_some in Hin'; [|exact Hwf].
    congruence.
Qed.

Lemma get_sweep (now : Z) (t : Store) (k : string) :
  JsMap.wf t ->
  JsMap.get k (snd (cleanExpiredThreads now t))
  = match JsMap.get k t with
    | Some thread => if expired now thread then None else Some thread
    | None => None
    end.
Proof.
  intros Hwf. rewrite sweep_filter by exact Hwf.
  rewrite get_filter by exact Hwf. unfold fresh. simpl.
  destruct (JsMap.get k t) as [th|]; [|reflexivity].
  now destruct (expired now th).
Qed.

End SweepFacts.

(** ** The store operations of the handler *)

Section StoreFacts.

Implicit Types (t : Store) (id : string).

Lemma Forall_set (P : string * ThreadData -> Prop) id (v : ThreadData) t :
  Forall P t -> P (id, v) -> Forall P (JsMap.set id v t).
Proof.
  intros Hall Hv. induction t as [|[k' v'] t IH]; simpl.
  - now constructor.
  - inversion Hall; subst.
    destruct (k' =? id)%string; constructor; auto.
Qed.

Lemma mint_thread_id_truthy (tid : option string) (now : Z) :
  Js.truthy (mint_thread_id tid now) = true.
Proof.
  unfold mint_thread_id.
  destruct tid as [id|]; [destruct (Js.truthy id) eqn:E|]; auto.
Qed.

Lemma updated_entries_length (history : list HistoryEntry) (u a : string) :
  List.length (updated_entries history u a) <= MAX_HISTORY_ENTRIES.
Proof.
  unfold updated_entries. rewrite slice_last_length. lia.
Qed.

Lemma resolve_history_present id (now : Z) t (thread : ThreadData) :
  Js.truthy id = true ->
  JsMap.get id t = Some thread ->
  resolve_history (Some id) now t
  = (entries thread,
     JsMap.set id {| entries := entries thread; lastAccess := now |} t).
Proof.
  intros Hid Hget. unfold resolve_history, JsMap.has.
  now rewrite Hid, Hget.
Qed.

Lemma resolve_history_absent id (now : Z) t :
  JsMap.get id t = None -> resolve_history (Some id) now t = ([], t).
Proof.
  intros Hget. unfold resolve_history, JsMap.has. rewrite Hget.
  now rewrite andb_false_r.
Qed.

(** What the handler reads is what is stored, whenever the supplied id
    is truthy. *)
Lemma resolve_history_reads id (now : Z) t :
  Js.truthy id = true ->
  fst (resolve_history (Some id) now t) = stored_history id t.
Proof.
  intros Hid. unfold stored_history.
  destruct (JsMap.get id t) as [th|] eqn:E.
  - now rewrite (resolve_history_present id now t th Hid E).
  - now rewrite (resolve_history_absent id now t E).
Qed.

(** The access leaves the map as it is or refreshes one record in place. *)
Lemma resolve_history_cases (tid : option string) (now : Z) t :
  snd (resolve_history tid now t) = t
  \/ exists id thread,
       Js.truthy id = true /\ JsMap.get id t = Some thread
       /\ snd (resolve_history tid now t)
          = JsMap.set id
              {| entries := entries thread; lastAccess := now |} t.
Proof.
  unfold resolve_history, JsMap.has.
  destruct tid as [id|]; [|now left].
  destruct (Js.truthy id) eqn:Hid; [|now left].
  destruct (JsMap.get id t) as [th|] eqn:E; [|now left].
  right. exists id, th. simpl. auto.
Qed.

Lemma resolve_history_entries (tid : option string) (now : Z) t id :
  option_map entries (JsMap.get id (snd (resolve_history tid now t)))
  = option_map entries (JsMap.get id t).
Proof.
  destruct (resolve_history_cases tid now t)
    as [->|[id' [th [_ [Hget ->]]]]]; [reflexivity|].
  destruct (String.eqb_spec id' id) as [->|Hne].
  - now rewrite get_set_same, Hget.
  - now rewrite get_set_other.
Qed.

Lemma resolve_history_size (tid : option string) (now : Z) t :
  JsMap.size (snd (resolve_history tid now t)) = JsMap.size t.
Proof.
  destruct (resolve_history_cases tid now t)
    as [->|[id' [th [_ [Hget ->]]]]]; [reflexivity|].
  apply size_set_present. congruence.
Qed.

(** On a store whose keys are distinct and truthy, the size check drops
    the first pair of an oversized map and nothing else. *)
Lemma enforce_capacity_tail t :
  JsMap.wf t -> Forall thread_ok t ->
  enforce_capacity t
  = if (MAX_THREADS <? JsMap.size t)%nat then tl t else t.
Proof.
  intros Hwf Hok. unfold enforce_capacity.
  destruct (MAX_THREADS <? JsMap.size t)%nat; [|reflexivity].
  destruct t as [|[k v] t]; simpl; [reflexivity|].
  inversion Hok as [|? ? [Hk _] _]; subst. simpl in Hk. rewrite Hk.
  now apply delete_first.
Qed.

Lemma wf_tl t : JsMap.wf t -> JsMap.wf (tl t).
Proof.
  unfold JsMap.wf. destruct t as [|p t]; simpl; [auto|].
  now inversion 1.
Qed.

Lemma store_inv_sweep (now : Z) t :
  store_inv t -> store_inv (snd (cleanExpiredThreads now t)).
Proof.
  intros [Hwf Hok Hsz]. rewrite sweep_filter by exact Hwf.
  split.
  - now apply wf_filter.
  - apply Forall_forall. intros p Hin. apply filter_In in Hin.
    now apply (proj1 (Forall_forall _ _) Hok).
  - unfold JsMap.size in *.
    pose proof (filter_length_le (fresh now) t). lia.
Qed.

Lemma store_inv_access (tid : option string) (now : Z) t :
  store_inv t -> store_inv (snd (resolve_history tid now t)).
Proof.
  intros Hinv.
  destruct (resolve_history_cases tid now t)
    as [->|[id [th [Hid [Hget Heq]]]]]; [exact Hinv|].
  destruct Hinv as [Hwf Hok Hsz]. split.
  - rewrite Heq. now apply wf_set.
  - rewrite Heq. apply Forall_set; [exact Hok|].
    apply get_some_in in Hget.
    destruct (proj1 (Forall_forall _ _) Hok _ Hget) as [_ Hlen].
    split; [exact Hid | exact Hlen].
  - now rewrite resolve_history_size.
Qed.

Lemma size_put_le id (es : list HistoryEntry) (now : Z) t :
  JsMap.size (put_thread id es now t) <= S (JsMap.size t).
Proof.
  unfold put_thread.
  destruct (JsMap.get id t) as [th|] eqn:E.
  - rewrite size_set_present; [lia | congruence].
  - rewrite size_set_absent; [lia | exact E].
Qed.

Lemma store_inv_persist (tid : option string) (history : list HistoryEntry)
    (u a : string) (mint put : Z) t :
  store_inv t ->
  store_inv
    (enforce_capacity
       (put_thread (mint_thread_id tid mint) (updated_entries history u a)
          put t)).
Proof.
  intros [Hwf Hok Hsz].
  set (t1 := put_thread _ _ _ _).
  assert (Hwf1 : JsMap.wf t1) by now apply wf_set.
  assert (Hok1 : Forall thread_ok t1).
  { apply Forall_set; [exact Hok|]. split; simpl.
    - apply mint_thread_id_truthy.
    - apply updated_entries_length. }
  assert (Hsz1 : JsMap.size t1 <= S MAX_THREADS).
  { pose proof (size_put_le (mint_thread_id tid mint)
                  (updated_entries history u a) put t). fold t1 in H. lia. }
  rewrite enforce_capacity_tail by assumption.
  destruct (Nat.ltb_spec MAX_THREADS (JsMap.size t1)) as [Hgt|Hle].
  - split.
    + now apply wf_tl.
    + destruct t1; simpl; [constructor | now inversion Hok1].
    + unfold JsMap.size in *. destruct t1; simpl in *; lia.
  - now split.
Qed.

Lemma store_inv_step t t' : step t t' -> store_inv t -> store_inv t'.
Proof.
  intros [now t0|tid now t0|tid h u a mint put t0].
  - apply store_inv_sweep.
  - apply store_inv_access.
  - apply store_inv_persist.
Qed.

Theorem reachable_inv t : reachable t -> store_inv t.
Proof.
  induction 1 as [|t t' _ IH Hstep].
  - split; [constructor | constructor | unfold JsMap.size; simpl].
    unfold MAX_THREADS. lia.
  - now apply (store_inv_step t t' Hstep).
Qed.

End StoreFacts.

(** ** The handler, case by case *)

Section HandlerFacts.

Variables (env : Env) (body : Body) (t : Store).

(** The history the request reads and the store after that access. *)
Local Abbreviation history :=
  (fst (resolve_history (threadId body) (now_access env) t)).
Local Abbreviation threads1 :=
  (snd (resolve_history (threadId body) (now_access env) t)).

(** A 200 response determines the whole path through the handler. *)
Lemma chatHandler_ok (msg id : string) (srcs : list Source) :
  response (chatHandler env body t)
  = {| status := 200; payload := ChatPayload msg id srcs |} ->
  exists userMessage client searchResults blocks,
    messages body = Some userMessage
    /\ Js.truthy userMessage = true
    /\ anthropic env = Some client
    /\ searchNearDocs (index_search env) userMessage = Some searchResults
    /\ client (user_content history searchResults userMessage) = Some blocks
    /\ msg = first_text blocks
    /\ id = mint_thread_id (threadId body) (now_mint env)
    /\ srcs = build_sources searchResults
    /\ threads_after (chatHandler env body t)
       = enforce_capacity
           (put_thread id (updated_entries history userMessage msg)
              (now_put env) threads1)
    /\ events (chatHandler env body t)
       = [SearchCall userMessage;
          ModelCall (user_content history searchResults userMessage);
          ConsoleLog (List.length searchResults)].
Proof.
  unfold chatHandler.
  destruct (messages body) as [userMessage|]; [|discriminate].
  destruct (Js.truthy userMessage) eqn:Hmsg; simpl; [|discriminate].
  destruct (anthropic env) as [client|]; [|discriminate].
  destruct (searchNearDocs (index_search env) userMessage)
    as [searchResults|] eqn:Hsearch; [|discriminate].
  destruct (resolve_history (threadId body) (now_access env) t)
    as [h t1]. simpl.
  destruct (client (user_content h searchResults userMessage))
    as [blocks|] eqn:Hreply; [|discriminate].
  simpl. intros [= <- <- <-].
  exists userMessage, client, searchResults, blocks. repeat split; auto.
Qed.

(** Every path leaves the store untouched, accessed, or accessed and
    then persisted. *)
Lemma chatHandler_store :
  threads_after (chatHandler env body t) = t
  \/ threads_after (chatHandler env body t) = threads1
  \/ exists (u a : string),
       threads_after (chatHandler env body t)
       = enforce_capacity
           (put_thread (mint_thread_id (threadId body) (now_mint env))
              (updated_entries history u a) (now_put env) threads1).
Proof.
  unfold chatHandler.
  destruct (messages body) as [userMessage|]; [|now left].
  destruct (Js.truthy userMessage); simpl; [|now left].
  destruct (anthropic env) as [client|]; [|now left].
  destruct (searchNearDocs (index_search env) userMessage)
    as [searchResults|]; [|now left].
  destruct (resolve_history (threadId body) (now_access env) t)
    as [h t1]. simpl.
  destruct (client (user_content h searchResults userMessage))
    as [blocks|]; simpl.
  - right. right. now exists userMessage, (first_text blocks).
  - right. now left.
Qed.

Lemma chatHandler_reachable :
  reachable t -> reachable (threads_after (chatHandler env body t)).
Proof.
  intros Hr.
  assert (H1 : reachable threads1).
  { apply reach_step with (t := t); [exact Hr | apply step_access]. }
  destruct chatHandler_store as [->|[->|[u [a ->]]]]; auto.
  apply reach_step with (t := threads1); [exact H1 | apply step_persist].
Qed.

End HandlerFacts.

(** ** Expiry (C1) *)

Section Expiry.

Lemma sweep_delete_expired (now : Z) (t : Store) (id : string)
    (thread : ThreadData) :
  JsMap.wf t ->
  JsMap.get id t = Some thread ->
  expired now thread = true ->
  snd (cleanExpiredThreads now (JsMap.delete id t))
  = snd (cleanExpiredThreads now t).
Proof.
  intros Hwf Hget Hexp.
  rewrite !sweep_filter by (try apply wf_delete; exact Hwf).
  unfold JsMap.delete. rewrite filter_filter.
  apply filter_ext_in. intros [k th] Hin. simpl.
  destruct (String.eqb_spec k id) as [->|Hne]; [|reflexivity].
  apply in_get_some in Hin; [|exact Hwf].
  unfold fresh. simpl. replace th with thread by congruence.
  now rewrite Hexp.
Qed.

Lemma reachable_key_truthy (t : Store) (id : string) (thread : ThreadData) :
  reachable t -> JsMap.get id t = Some thread -> Js.truthy id = true.
Proof.
  intros Hr Hget. apply reachable_inv in Hr. destruct Hr as [_ Hok _].
  apply get_some_in in Hget.
  now destruct (proj1 (Forall_forall _ _) Hok _ Hget).
Qed.

(** C1, as the code has it: the handler looks the thread up with
    [threads.has] only.  A record whose age exceeds the time-to-live stops
    being read once a sweep has run past its expiry: the record is gone, a
    request with its id starts from an empty history, and every request is
    handled exactly as if the session had never been in the store.  Until
    that sweep the record is read whatever its age. *)
Theorem swept_thread_reads_as_absent (t : Store) (id : string)
    (thread : ThreadData) (now : Z) :
  reachable t ->
  JsMap.get id t = Some thread ->
  (now - lastAccess thread > THREAD_TTL_MS)%Z ->
  JsMap.get id (snd (cleanExpiredThreads now t)) = None
  /\ (forall (n : Z),
        resolve_history (Some id) n (snd (cleanExpiredThreads now t))
        = ([], snd (cleanExpiredThreads now t)))
  /\ (forall (env : Env) (body : Body),
        chatHandler env body (snd (cleanExpiredThreads now t))
        = chatHandler env body
            (snd (cleanExpiredThreads now (JsMap.delete id t))))
  /\ (forall (n : Z),
        fst (resolve_history (Some id) n t) = entries thread).
Proof.
  intros Hr Hget Hage.
  assert (Hwf : JsMap.wf t) by (now destruct (reachable_inv t Hr)).
  assert (Hexp : expired now thread = true).
  { unfold expired. now apply Z.gtb_lt, Z.gt_lt. }
  assert (Hgone : JsMap.get id (snd (cleanExpiredThreads now t)) = None).
  { rewrite get_sweep by exact Hwf. now rewrite Hget, Hexp. }
  repeat split.
  - exact Hgone.
  - intros n. now apply resolve_history_absent.
  - intros env body.
    now rewrite (sweep_delete_expired now t id thread Hwf Hget Hexp).
  - intros n.
    rewrite (resolve_history_present id n t thread); auto.
    now apply (reachable_key_truthy t id thread).
Qed.

Lemma sample_old_store_reachable : reachable Sample.old_store.
Proof.
  apply reach_step with (t := JsMap.empty ThreadData); [apply reach_init|].
  exact (step_persist (Some "s1"%string) [] "hi" "hello" 0 0
           (JsMap.empty ThreadData)).
Qed.

Lemma swept_thread_reads_as_absent_witness :
  JsMap.get "s1"%string (snd (cleanExpiredThreads 1800001 Sample.old_store))
  = None
  /\ fst (resolve_history (Some "s1"%string) 1500000 Sample.old_store)
     = turn_entries "hi" "hello".
Proof.
  destruct (swept_thread_reads_as_absent Sample.old_store "s1"%string
              Sample.old_thread 1800001 sample_old_store_reachable
              eq_refl eq_refl) as [Hgone [_ [_ Hread]]].
  split; [exact Hgone | exact (Hread 1500000%Z)].
Defined.

(** C1 as stated fails: one millisecond past the time-to-live, with no
    sweep since, the handler still reads the stored entries and sends them
    to the model; on a store without the session it sends no history. *)
Lemma expired_thread_still_read :
  reachable Sample.old_store
  /\ JsMap.get "s1"%string Sample.old_store = Some Sample.old_thread
  /\ (now_access Sample.late_env - lastAccess Sample.old_thread
      > THREAD_TTL_MS)%Z
  /\ fst (resolve_history (threadId Sample.late_body)
            (now_access Sample.late_env) Sample.old_store)
     = turn_entries "hi" "hello"
  /\ events (chatHandler Sample.late_env Sample.late_body Sample.old_store)
     <> events (chatHandler Sample.late_env Sample.late_body
                  (JsMap.empty ThreadData))
  /\ stored_history "s1"%string
       (threads_after
          (chatHandler Sample.late_env Sample.late_body Sample.old_store))
     = turn_entries "hi" "hello" ++ turn_entries "again" "ok".
Proof.
  split; [exact sample_old_store_reachable|].
  split; [reflexivity|].
  split; [reflexivity|].
  split; [reflexivity|].
  split; [|reflexivity].
  vm_compute. discriminate.
Qed.

End Expiry.

(** ** Retained history (C2) *)

Section Retention.

Lemma get_app_last {V : Type} (k : string) (v : V) (m : JsMap.t V) :
  JsMap.get k m = None -> JsMap.get k (m ++ [(k, v)]) = Some v.
Proof.
  induction m as [|[k' v'] m IH]; simpl.
  - now rewrite String.eqb_refl.
  - destruct (k' =? k)%string; [discriminate | exact IH].
Qed.

Lemma get_tl_none {V : Type} (k : string) (m : JsMap.t V) :
  JsMap.get k m = None -> JsMap.get k (tl m) = None.
Proof.
  destruct m as [|[k' v'] m]; simpl; [auto|].
  destruct (k' =? k)%string; [discriminate | auto].
Qed.

(** A session just written survives the size check of its own turn. *)
Lemma get_after_persist (id : string) (es : list HistoryEntry) (now : Z)
    (t : Store) :
  store_inv t ->
  Js.truthy id = true ->
  List.length es <= MAX_HISTORY_ENTRIES ->
  JsMap.get id (enforce_capacity (put_thread id es now t))
  = Some {| entries := es; lastAccess := now |}.
Proof.
  intros [Hwf Hok Hsz] Hid Hes. unfold put_thread.
  set (v := {| entries := es; lastAccess := now |}).
  rewrite enforce_capacity_tail;
    [| now apply wf_set | apply Forall_set; [exact Hok | now split] ].
  destruct (Nat.ltb_spec MAX_THREADS (JsMap.size (JsMap.set id v t)))
    as [Hgt|Hle]; [|apply get_set_same].
  destruct (JsMap.get id t) as [th|] eqn:E.
  - rewrite size_set_present in Hgt by congruence. lia.
  - rewrite set_absent by exact E.
    destruct t as [|p t]; [unfold MAX_THREADS in Hgt; simpl in Hgt; lia|].
    simpl. apply get_app_last.
    now apply (get_tl_none id (p :: t)).
Qed.

Lemma stored_history_bounded (id : string) (t : Store) :
  store_inv t -> List.length (stored_history id t) <= MAX_HISTORY_ENTRIES.
Proof.
  intros [_ Hok _]. unfold stored_history.
  destruct (JsMap.get id t) as [th|] eqn:E; [|simpl; lia].
  apply get_some_in in E.
  now destruct (proj1 (Forall_forall _ _) Hok _ E).
Qed.

Lemma stored_history_entries (id : string) (t1 t2 : Store) :
  option_map entries (JsMap.get id t2) = option_map entries (JsMap.get id t1) ->
  stored_history id t2 = stored_history id t1.
Proof.
  unfold stored_history.
  destruct (JsMap.get id t2), (JsMap.get id t1); simpl; congruence.
Qed.

(** The supplied id of a turn answered under the same id is truthy. *)
Lemma answered_id_truthy (id : string) (now : Z) :
  id = mint_thread_id (Some id) now -> Js.truthy id = true.
Proof.
  unfold mint_thread_id. destruct (Js.truthy id) eqn:E; [reflexivity|].
  apply truthy_false in E. subst id. discriminate.
Qed.

(** The invariant carried along a run of turns on one session. *)
Lemma turns_on_inv (id : string) (t t' : Store) (log : list HistoryEntry) :
  reachable t ->
  turns_on id t log t' ->
  reachable t'
  /\ stored_history id t'
     = Js.slice_last MAX_HISTORY_ENTRIES (stored_history id t ++ log)
  /\ (log <> [] -> JsMap.get id t' <> None).
Proof.
  intros Hr Hturns.
  induction Hturns
    as [t | t t1 log env u a srcs _ IH Hresp | t t1 t2 log _ IH Hstep Hkeep].
  - split; [exact Hr|]. split; [|congruence].
    rewrite app_nil_r. symmetry. apply slice_last_all.
    apply stored_history_bounded. now apply reachable_inv.
  - destruct (IH Hr) as [Hr1 [Hst _]].
    destruct (chatHandler_ok _ _ _ _ _ _ Hresp)
      as [u' [client [rs [blocks
            [Hu [_ [_ [_ [_ [_ [Hid [_ [Hafter _]]]]]]]]]]]]].
    cbn [threadId messages] in Hu, Hid, Hafter. injection Hu as <-.
    assert (Htruthy : Js.truthy id = true)
      by exact (answered_id_truthy id _ Hid).
    rewrite resolve_history_reads in Hafter by exact Htruthy.
    assert (Hget :
      JsMap.get id
        (threads_after
           (chatHandler env {| messages := Some u; threadId := Some id |} t1))
      = Some {| entries := updated_entries (stored_history id t1) u a;
                lastAccess := now_put env |}).
    { rewrite Hafter. apply get_after_persist.
      - apply store_inv_access. now apply reachable_inv.
      - exact Htruthy.
      - apply updated_entries_length. }
    split; [now apply chatHandler_reachable|].
    split; [|congruence].
    unfold stored_history at 1. rewrite Hget. simpl.
    unfold updated_entries. fold (turn_entries u a).
    rewrite Hst, slice_last_app_slice. now rewrite app_assoc.
  - destruct (IH Hr) as [Hr1 [Hst Hpresent]].
    split; [now apply reach_step with (t := t1)|].
    split.
    + now rewrite (stored_history_entries id t1 t2 Hkeep).
    + intros Hlog Hnone. apply (Hpresent Hlog).
      rewrite Hnone in Hkeep. simpl in Hkeep.
      now destruct (JsMap.get id t1).
Qed.

(** C2: after any positive number of completed turns on a session, the
    stored history holds at most four entries, and they are the last
    entries of everything appended to the session, in the order of
    appending: what is dropped is a prefix, the oldest entries.  No other
    session of the store holds more than four entries either. *)
Theorem history_after_turns (id : string) (t t' : Store)
    (log : list HistoryEntry) :
  reachable t ->
  turns_on id t log t' ->
  log <> [] ->
  (forall (k : string) (other : ThreadData),
     JsMap.get k t' = Some other -> List.length (entries other) <= 4)
  /\ exists (thread : ThreadData) (dropped : list HistoryEntry),
       JsMap.get id t' = Some thread
       /\ List.length (entries thread) <= 4
       /\ stored_history id t ++ log = dropped ++ entries thread
       /\ List.length (entries thread)
          = Nat.min 4 (List.length (stored_history id t ++ log)).
Proof.
  intros Hr Hturns Hlog.
  destruct (turns_on_inv id t t' log Hr Hturns) as [Hr' [Hst Hpresent]].
  split.
  { intros k other Hk. destruct (reachable_inv t' Hr') as [_ Hok _].
    apply get_some_in in Hk.
    now destruct (proj1 (Forall_forall _ _) Hok _ Hk). }
  specialize (Hpresent Hlog).
  destruct (JsMap.get id t') as [thread|] eqn:Hget; [|congruence].
  unfold stored_history at 1 in Hst. rewrite Hget in Hst.
  exists thread,
    (firstn (List.length (stored_history id t ++ log) - MAX_HISTORY_ENTRIES)
       (stored_history id t ++ log)).
  split; [reflexivity|]. rewrite Hst.
  split; [rewrite slice_last_length; unfold MAX_HISTORY_ENTRIES; lia|].
  split; [symmetry; apply slice_last_suffix|].
  apply slice_last_length.
Qed.

Lemma sample_three_turns :
  turns_on "s1"%string (JsMap.empty ThreadData) Sample.three_turns_log
    Sample.three_turns.
Proof.
  unfold Sample.three_turns_log, Sample.three_turns.
  apply (@turns_turn "s1"%string _ _ _ Sample.late_env "c" "ok" []);
    [|reflexivity].
  apply (@turns_turn "s1"%string _ _ _ Sample.late_env "b" "ok" []);
    [|reflexivity].
  apply (@turns_turn "s1"%string _ _ _ Sample.late_env "a" "ok" []);
    [|reflexivity].
  apply (@turns_none "s1"%string).
Qed.

Lemma history_after_turns_witness :
  exists (thread : ThreadData) (dropped : list HistoryEntry),
    JsMap.get "s1"%string Sample.three_turns = Some thread
    /\ List.length (entries thread) <= 4
    /\ stored_history "s1"%string (JsMap.empty ThreadData)
       ++ Sample.three_turns_log
       = dropped ++ entries thread
    /\ List.length (entries thread)
       = Nat.min 4
           (List.length
              (stored_history "s1"%string (JsMap.empty ThreadData)
               ++ Sample.three_turns_log)).
Proof.
  apply (history_after_turns "s1"%string (JsMap.empty ThreadData)
           Sample.three_turns Sample.three_turns_log).
  - apply reach_init.
  - exact sample_three_turns.
  - discriminate.
Defined.

End Retention.

(** ** Capacity (C3) *)

Section Capacity.

Lemma store_after_insert_eq (env : Env) (body : Body) (u a : string)
    (t : Store) :
  store_after_insert env body u a t
  = put_thread (mint_thread_id (threadId body) (now_mint env))
      (updated_entries
         (fst (resolve_history (threadId body) (now_access env) t)) u a)
      (now_put env)
      (snd (resolve_history (threadId body) (now_access env) t)).
Proof.
  unfold store_after_insert.
  now destruct (resolve_history (threadId body) (now_access env) t).
Qed.

Lemma store_after_insert_inv (env : Env) (body : Body) (u a : string)
    (t : Store) :
  store_inv t ->
  JsMap.wf (store_after_insert env body u a t)
  /\ Forall thread_ok (store_after_insert env body u a t).
Proof.
  intros Hinv. rewrite store_after_insert_eq.
  destruct (store_inv_access (threadId body) (now_access env) t Hinv)
    as [Hwf Hok _].
  split.
  - now apply wf_set.
  - apply Forall_set; [exact Hok|]. split; simpl.
    + apply mint_thread_id_truthy.
    + apply updated_entries_length.
Qed.

(** C3: on a successful turn, when the store holds more than 100 records
    right after the insert, the handler leaves the store without its first
    record in iteration order and with every other record in place; when
    it holds at most 100, the store is left as inserted. *)
Theorem capacity_eviction (env : Env) (body : Body) (t : Store)
    (userMessage msg id : string) (srcs : list Source) :
  reachable t ->
  messages body = Some userMessage ->
  response (chatHandler env body t)
  = {| status := 200; payload := ChatPayload msg id srcs |} ->
  (100 < JsMap.size (store_after_insert env body userMessage msg t) ->
   exists (first : string * ThreadData) (rest : Store),
     store_after_insert env body userMessage msg t = first :: rest
     /\ threads_after (chatHandler env body t) = rest
     /\ S (JsMap.size (threads_after (chatHandler env body t)))
        = JsMap.size (store_after_insert env body userMessage msg t)
     /\ JsMap.get (fst first) (threads_after (chatHandler env body t)) = None)
  /\ (JsMap.size (store_after_insert env body userMessage msg t) <= 100 ->
      threads_after (chatHandler env body t)
      = store_after_insert env body userMessage msg t).
Proof.
  intros Hr Hmsg Hresp.
  destruct (chatHandler_ok env body t msg id srcs Hresp)
    as [u' [client [rs [blocks
          [Hu [_ [_ [_ [_ [_ [Hid [_ [Hafter _]]]]]]]]]]]]].
  assert (u' = userMessage) by congruence. subst u'.
  rewrite Hid in Hafter. rewrite <- store_after_insert_eq in Hafter.
  destruct (store_after_insert_inv env body userMessage msg t
              (reachable_inv t Hr)) as [Hwf Hok].
  rewrite enforce_capacity_tail in Hafter by assumption.
  change MAX_THREADS with 100 in Hafter.
  split.
  - intros Hgt. apply Nat.ltb_lt in Hgt. rewrite Hgt in Hafter.
    destruct (store_after_insert env body userMessage msg t)
      as [|[k v] rest] eqn:Eins; [discriminate|].
    exists (k, v), rest. simpl in Hafter. rewrite Hafter.
    repeat split; simpl.
    apply get_none_iff. unfold JsMap.wf in Hwf. simpl in Hwf.
    now inversion Hwf.
  - intros Hle. apply Nat.ltb_ge in Hle. now rewrite Hle in Hafter.
Qed.

Lemma sample_fill_reachable (n : nat) : reachable (Sample.fill n).
Proof.
  induction n as [|n IH].
  - apply reach_init.
  - apply reach_step with (t := Sample.fill n); [exact IH|].
    exact (step_persist (Some ("t" ++ Js.nat_to_string n)%string) []
             "q" "ok" 0 (Z.of_nat n) (Sample.fill n)).
Qed.

Lemma capacity_eviction_witness :
  JsMap.size
    (threads_after
       (chatHandler Sample.late_env Sample.new_body (Sample.fill 100)))
  = 100
  /\ JsMap.get "t0"%string
       (threads_after
          (chatHandler Sample.late_env Sample.new_body (Sample.fill 100)))
     = None
  /\ JsMap.get "t0"%string (Sample.fill 100) <> None.
Proof.
  assert (Hresp :
    response (chatHandler Sample.late_env Sample.new_body (Sample.fill 100))
    = {| status := 200; payload := ChatPayload "ok" "fresh" [] |})
    by (vm_compute; reflexivity).
  assert (Hsize :
    JsMap.size
      (store_after_insert Sample.late_env Sample.new_body "q" "ok"
         (Sample.fill 100)) = 101) by (vm_compute; reflexivity).
  assert (Hkey :
    JsMap.first_key
      (store_after_insert Sample.late_env Sample.new_body "q" "ok"
         (Sample.fill 100)) = Some "t0"%string) by (vm_compute; reflexivity).
  pose proof (capacity_eviction Sample.late_env Sample.new_body
                (Sample.fill 100) "q" "ok" "fresh" []
                (sample_fill_reachable 100) eq_refl Hresp) as [Hover _].
  rewrite Hsize in Hover.
  destruct (Hover (Nat.lt_succ_diag_r 100))
    as [first [rest [Hins [_ [Hone Hgone]]]]].
  rewrite Hins in Hkey. destruct first as [k v].
  cbn [JsMap.first_key] in Hkey. cbn [fst] in Hgone.
  injection Hkey as ->.
  split; [exact (eq_add_S _ _ Hone) | split; [exact Hgone|]].
  vm_compute. discriminate.
Defined.

End Capacity.

(** ** The history block (C4) *)

Section HistoryBlock.

Lemma slice_last_app_keep {A : Type} (n : nat) (a b : list A) :
  Js.slice_last (n + List.length b) (a ++ b) = Js.slice_last n a ++ b.
Proof.
  unfold Js.slice_last. rewrite length_app.
  replace (List.length a + List.length b - (n + List.length b))
    with (List.length a - n) by lia.
  rewrite skipn_app.
  replace (List.length a - n - List.length a) with 0 by lia.
  reflexivity.
Qed.

Lemma history_line_shows (entry : HistoryEntry) :
  shows entry (history_line entry).
Proof.
  destruct (str_slice0_prefix MAX_HISTORY_CHAR (text entry)) as [rest Hrest].
  exists (Js.str_slice0 MAX_HISTORY_CHAR (text entry)), rest.
  split; [reflexivity|]. split; [exact Hrest|].
  apply str_slice0_length.
Qed.

Lemma history_lines_show (recent : list HistoryEntry) :
  Forall2 shows recent (map history_line recent).
Proof.
  induction recent as [|e recent IH]; simpl; constructor; auto.
  apply history_line_shows.
Qed.

(** The record a successful turn leaves under the answered id. *)
Lemma stored_after_turn (env : Env) (body : Body) (t : Store)
    (userMessage msg id : string) (srcs : list Source) :
  reachable t ->
  messages body = Some userMessage ->
  response (chatHandler env body t)
  = {| status := 200; payload := ChatPayload msg id srcs |} ->
  JsMap.get id (threads_after (chatHandler env body t))
  = Some {| entries :=
              updated_entries
                (fst (resolve_history (threadId body) (now_access env) t))
                userMessage msg;
            lastAccess := now_put env |}.
Proof.
  intros Hr Hmsg Hresp.
  destruct (chatHandler_ok env body t msg id srcs Hresp)
    as [u' [client [rs [blocks
          [Hu [_ [_ [_ [_ [_ [Hid [_ [Hafter _]]]]]]]]]]]]].
  assert (u' = userMessage) by congruence. subst u'.
  rewrite Hafter. apply get_after_persist.
  - apply store_inv_access. now apply reachable_inv.
  - rewrite Hid. apply mint_thread_id_truthy.
  - apply updated_entries_length.
Qed.

(** C4: the history block is empty for an empty history; otherwise it is
    the wrapper around one line per entry of the last four at most, each
    line the role, a colon and the first 200 characters at most of the
    text.  The store keeps the texts of the turn as they were given. *)
Theorem history_block_format :
  buildHistoryContext [] = EmptyString
  /\ (forall (history : list HistoryEntry),
        history <> [] ->
        exists (dropped recent : list HistoryEntry) (lines : list string),
          history = dropped ++ recent
          /\ List.length recent = Nat.min 4 (List.length history)
          /\ Forall2 shows recent lines
          /\ buildHistoryContext history
             = ("<conversation_history>" ++ nl ++ Js.join nl lines ++ nl
                ++ "</conversation_history>" ++ nl ++ nl)%string)
  /\ (forall (env : Env) (body : Body) (t : Store)
        (userMessage msg id : string) (srcs : list Source),
        reachable t ->
        messages body = Some userMessage ->
        response (chatHandler env body t)
        = {| status := 200; payload := ChatPayload msg id srcs |} ->
        exists (thread : ThreadData) (dropped older : list HistoryEntry),
          JsMap.get id (threads_after (chatHandler env body t)) = Some thread
          /\ fst (resolve_history (threadId body) (now_access env) t)
             = dropped ++ older
          /\ entries thread
             = older ++ [ {| role := user; text := userMessage |};
                          {| role := assistant; text := msg |} ]).
Proof.
  split; [reflexivity|]. split.
  - intros history Hne.
    exists (firstn (List.length history - MAX_HISTORY_ENTRIES) history),
      (Js.slice_last MAX_HISTORY_ENTRIES history),
      (map history_line (Js.slice_last MAX_HISTORY_ENTRIES history)).
    split; [symmetry; apply slice_last_suffix|].
    split; [apply slice_last_length|].
    split; [apply history_lines_show|].
    unfold buildHistoryContext.
    destruct history as [|e history]; [congruence | reflexivity].
  - intros env body t userMessage msg id srcs Hr Hmsg Hresp.
    rewrite (stored_after_turn env body t userMessage msg id srcs Hr Hmsg Hresp).
    eexists.
    exists (firstn
              (List.length
                 (fst (resolve_history (threadId body) (now_access env) t))
               - 2)
              (fst (resolve_history (threadId body) (now_access env) t))),
      (Js.slice_last 2
         (fst (resolve_history (threadId body) (now_access env) t))).
    split; [reflexivity|].
    split; [symmetry; apply slice_last_suffix|].
    cbn [entries]. unfold updated_entries.
    exact (slice_last_app_keep 2 _
             [ {| role := user; text := userMessage |};
               {| role := assistant; text := msg |} ]).
Qed.

Lemma sample_long_store_reachable :
  reachable [("s1"%string,
              {| entries := Sample.long_history; lastAccess := 0 |})].
Proof.
  apply reach_step with (t := JsMap.empty ThreadData); [apply reach_init|].
  exact (step_persist (Some "s1"%string) [] (Sample.xs 250) "ok" 0 0
           (JsMap.empty ThreadData)).
Qed.

Lemma history_block_format_witness :
  (exists (dropped recent : list HistoryEntry) (lines : list string),
     Sample.long_history = dropped ++ recent
     /\ List.length recent = Nat.min 4 (List.length Sample.long_history)
     /\ Forall2 shows recent lines
     /\ buildHistoryContext Sample.long_history
        = ("<conversation_history>" ++ nl ++ Js.join nl lines ++ nl
           ++ "</conversation_history>" ++ nl ++ nl)%string)
  /\ (exists (thread : ThreadData) (dropped older : list HistoryEntry),
        JsMap.get "s1"%string
          (threads_after
             (chatHandler Sample.late_env Sample.long_body
                [("s1"%string,
                  {| entries := Sample.long_history; lastAccess := 0 |})]))
        = Some thread
        /\ fst (resolve_history (threadId Sample.long_body)
                  (now_access Sample.late_env)
                  [("s1"%string,
                    {| entries := Sample.long_history; lastAccess := 0 |})])
           = dropped ++ older
        /\ entries thread
           = older ++ [ {| role := user; text := Sample.xs 250 |};
                        {| role := assistant; text := "ok" |} ]).
Proof.
  destruct history_block_format as [_ [Hblock Hstored]].
  split.
  - apply Hblock. discriminate.
  - apply (Hstored Sample.late_env Sample.long_body _ (Sample.xs 250) "ok"
             "s1"%string []).
    + exact sample_long_store_reachable.
    + reflexivity.
    + vm_compute. reflexivity.
Defined.

(** A text of 250 characters is shown cut to 200 and stored whole. *)
Example long_text_shown_and_stored :
  history_line {| role := user; text := Sample.xs 250 |}
  = ("user: " ++ Sample.xs 200)%string
  /\ map (fun e => String.length (text e))
       (stored_history "s1"%string
          (threads_after
             (chatHandler Sample.late_env Sample.long_body
                (JsMap.empty ThreadData))))
     = [250; 2].
Proof. split; vm_compute; reflexivity. Qed.

End HistoryBlock.

(** ** The search block (C5, C9) *)

Section SearchBlock.

(** C5: without results the block is the wrapper around the marker line;
    with results it is the wrapper around one [<doc>] element per result,
    in the order received, the first with index 1. *)
Theorem search_block_format :
  buildSearchContext []
  = "<search_results>
No documents found for this query.
</search_results>"%string
  /\ buildSearchContext [] <> EmptyString
  /\ buildSearchContext []
     <> ("<search_results>" ++ nl ++ nl ++ "</search_results>")%string
  /\ (forall (results : list SearchResult),
        results <> [] ->
        exists (docs : list string),
          buildSearchContext results
          = ("<search_results>" ++ nl ++ Js.join nl docs ++ nl
             ++ "</search_results>")%string
          /\ List.length docs = List.length results
          /\ forall (i : nat) (r : SearchResult),
               nth_error results i = Some r ->
               nth_error docs i
               = Some ("<doc index=" ++ dq ++ Js.nat_to_string (S i) ++ dq
                       ++ ">" ++ nl
                       ++ "<title>" ++ title r ++ "</title>" ++ nl
                       ++ "<path>" ++ path r ++ "</path>" ++ nl
                       ++ "<content>" ++ content r ++ "</content>" ++ nl
                       ++ "</doc>")%string).
Proof.
  split; [reflexivity|].
  split; [discriminate|].
  split; [discriminate|].
  intros results Hne.
  exists (Js.mapi doc_block results).
  split; [destruct results; [congruence | reflexivity]|].
  split; [apply mapi_from_length|].
  intros i r Hnth. unfold Js.mapi.
  rewrite (mapi_from_nth_error doc_block results 0 i r Hnth).
  unfold doc_block. simpl Nat.add. now rewrite Nat.add_1_r.
Qed.

Lemma search_block_format_witness :
  exists (docs : list string),
    buildSearchContext Sample.two_results
    = ("<search_results>" ++ nl ++ Js.join nl docs ++ nl
       ++ "</search_results>")%string
    /\ List.length docs = 2.
Proof.
  destruct search_block_format as [_ [_ [_ Hdocs]]].
  destruct (Hdocs Sample.two_results) as [docs [Hblock [Hlen _]]].
  - discriminate.
  - exists docs. split; [exact Hblock | exact Hlen].
Defined.

Example search_block_two_results :
  buildSearchContext Sample.two_results
  = ("<search_results>
<doc index=" ++ dq ++ "1" ++ dq ++ ">
<title>Accounts</title>
<path>/accounts</path>
<content>about accounts</content>
</doc>
<doc index=" ++ dq ++ "2" ++ dq ++ ">
<title>Untitled</title>
<path></path>
<content>loose page</content>
</doc>
</search_results>")%string.
Proof. vm_compute. reflexivity. Qed.

Example doc_index_is_decimal :
  map Js.nat_to_string [1; 9; 10; 12] = ["1"; "9"; "10"; "12"]%string.
Proof. reflexivity. Qed.

Lemma hit_content_capped (h : Hit) :
  String.length (content (hit_to_result h)) <= MAX_CONTENT_LENGTH.
Proof.
  unfold hit_to_result. cbn [content]. rewrite str_slice0_length. lia.
Qed.

(** C9: every result of the search gateway carries at most 800 characters
    of content, the first 800 of what the engine returned; the [<doc>]
    element of the context carries that content whole. *)
Theorem search_results_capped (engine : Engine) (query : string)
    (results : list SearchResult) :
  searchNearDocs engine query = Some results ->
  Forall (fun r => String.length (content r) <= 800) results
  /\ (exists (hits : list Hit),
        engine query 5 = Some hits
        /\ Forall2
             (fun h r =>
                exists (raw rest : string),
                  raw = or_default
                          (Js.or_else (formatted_content h) (hit_content h))
                          EmptyString
                  /\ raw = (content r ++ rest)%string
                  /\ String.length (content r)
                     = Nat.min 800 (String.length raw))
             hits results)
  /\ (forall (r : SearchResult) (i : nat),
        In r results ->
        exists (before after : string),
          doc_block r i
          = (before ++ "<content>" ++ content r ++ "</content>" ++ after)%string).
Proof.
  unfold searchNearDocs. destruct (engine query 5) as [hits|]; [|discriminate].
  intros [= <-]. split; [|split].
  - apply Forall_map. apply Forall_forall. intros h _.
    apply hit_content_capped.
  - exists hits. split; [reflexivity|].
    induction hits as [|h hits IH]; simpl; constructor; [|exact IH].
    destruct (str_slice0_prefix MAX_CONTENT_LENGTH
                (or_default
                   (Js.or_else (formatted_content h) (hit_content h))
                   EmptyString)) as [rest Hrest].
    eexists. exists rest. split; [reflexivity|]. split; [exact Hrest|].
    apply str_slice0_length.
  - intros r i _. unfold doc_block.
    exists ("<doc index=" ++ dq ++ Js.nat_to_string (i + 1) ++ dq ++ ">" ++ nl
            ++ "<title>" ++ title r ++ "</title>" ++ nl
            ++ "<path>" ++ path r ++ "</path>" ++ nl)%string,
      (nl ++ "</doc>")%string.
    now rewrite !str_append_assoc.
Qed.

Lemma search_results_capped_witness :
  Forall (fun r => String.length (content r) <= 800)
    (map hit_to_result
       [ {| hit_title := Some "Long"%string;
            hit_formatted := None;
            hit_content := Some (Sample.xs 1000);
            hit_path := Some "/long"%string |};
         {| hit_title := None;
            hit_formatted := Some {| fmt_content := Some "cropped"%string |};
            hit_content := Some "whole"%string;
            hit_path := None |} ]).
Proof.
  exact (proj1 (search_results_capped Sample.long_engine "near"%string _
                  eq_refl)).
Defined.

Example long_content_cut :
  option_map (map (fun r => (title r, String.length (content r), path r)))
    (searchNearDocs Sample.long_engine "near")
  = Some [ ("Long"%string, 800, "/long"%string);
           ("Untitled"%string, 7, EmptyString) ].
Proof. vm_compute. reflexivity. Qed.

End SearchBlock.

(** ** Rejected requests (C6, C10) *)

Section Rejection.

(** On a parsed body the handler is [chatHandler]; without one it leaves
    the store alone.  Either way it maps reachable stores to reachable
    stores. *)
Lemma chatHandler_req_parsed (env : Env) (body : Body) (t : Store) :
  chatHandler_req env (Some body) t = chatHandler env body t.
Proof. reflexivity. Qed.

Lemma chatHandler_req_reachable (env : Env) (req_body : option Body)
    (t : Store) :
  reachable t -> reachable (threads_after (chatHandler_req env req_body t)).
Proof.
  destruct req_body as [body|]; cbn [chatHandler_req].
  - apply chatHandler_reachable.
  - intros Hr. exact Hr.
Qed.





(** C10: an empty-string [messages] is falsy, so the request is answered
    400 with the same payload as a body without the field, without calls
    and without store change. *)
Theorem empty_message_rejected (env : Env) (tid : option string) (t : Store) :
  chatHandler env {| messages := Some EmptyString; threadId := tid |} t
  = {| response :=
         {| status := 400; payload := ErrorPayload "Message is required" |};
       threads_after := t;
       events := [] |}
  /\ chatHandler env {| messages := Some EmptyString; threadId := tid |} t
     = chatHandler env {| messages := None; threadId := tid |} t.
Proof. split; reflexivity. Qed.

End Rejection.

(** ** The sweep (C7) *)

Section Sweep.

(** C7: the sweep keeps the records whose age is at most the time-to-live,
    in their order, and removes the others; it always completes and hands
    back nothing but the store. *)
Theorem sweep_removes_exactly_expired (now : Z) (t : Store) :
  JsMap.wf t ->
  fst (cleanExpiredThreads now t) = tt
  /\ snd (cleanExpiredThreads now t)
     = filter
         (fun kv => (now - lastAccess (snd kv) <=? 30 * 60 * 1000)%Z) t
  /\ (forall (id : string) (thread : ThreadData),
        JsMap.get id t = Some thread ->
        (now - lastAccess thread > 30 * 60 * 1000)%Z ->
        JsMap.get id (snd (cleanExpiredThreads now t)) = None)
  /\ (forall (id : string) (thread : ThreadData),
        JsMap.get id t = Some thread ->
        (now - lastAccess thread <= 30 * 60 * 1000)%Z ->
        JsMap.get id (snd (cleanExpiredThreads now t)) = Some thread)
  /\ (forall (id : string),
        JsMap.get id t = None ->
        JsMap.get id (snd (cleanExpiredThreads now t)) = None).
Proof.
  intros Hwf. split; [reflexivity|]. split; [|split; [|split]].
  - rewrite sweep_filter by exact Hwf. apply filter_ext. intros [k th].
    unfold fresh, expired. simpl.
    change THREAD_TTL_MS with (30 * 60 * 1000)%Z.
    rewrite Z.gtb_ltb, Z.ltb_antisym. now rewrite negb_involutive.
  - intros id thread Hget Hage. rewrite get_sweep by exact Hwf.
    rewrite Hget. unfold expired.
    change THREAD_TTL_MS with (30 * 60 * 1000)%Z.
    destruct (Z.gtb_spec (now - lastAccess thread) (30 * 60 * 1000));
      [reflexivity | lia].
  - intros id thread Hget Hage. rewrite get_sweep by exact Hwf.
    rewrite Hget. unfold expired.
    change THREAD_TTL_MS with (30 * 60 * 1000)%Z.
    destruct (Z.gtb_spec (now - lastAccess thread) (30 * 60 * 1000));
      [lia | reflexivity].
  - intros id Hget. rewrite get_sweep by exact Hwf. now rewrite Hget.
Qed.

Lemma sample_mixed_store_wf : JsMap.wf Sample.mixed_store.
Proof.
  unfold JsMap.wf. simpl.
  repeat constructor; simpl; intuition discriminate.
Qed.

Lemma sweep_removes_exactly_expired_witness :
  snd (cleanExpiredThreads 1800001 Sample.mixed_store)
  = [ ("edge"%string,
       {| entries := turn_entries "c" "d"; lastAccess := 1 |});
      ("new"%string,
       {| entries := turn_entries "e" "f"; lastAccess := 1000000 |}) ]
  /\ JsMap.get "old"%string
       (snd (cleanExpiredThreads 1800001 Sample.mixed_store))
     = None.
Proof.
  destruct (sweep_removes_exactly_expired 1800001 Sample.mixed_store
              sample_mixed_store_wf) as [_ [Hkept [Hgone _]]].
  split.
  - rewrite Hkept. reflexivity.
  - apply (Hgone "old"%string
             {| entries := turn_entries "a" "b"; lastAccess := 0 |});
      reflexivity.
Defined.

End Sweep.

(** ** Sources of a response (C8) *)

Section Sources.

Lemma build_sources_spec (results : list SearchResult) :
  build_sources results = sources_spec results.
Proof.
  unfold build_sources.
  induction results as [|r results IH]; simpl; [reflexivity|].
  destruct (path r) as [|c p] eqn:Hpath; simpl.
  - exact IH.
  - unfold to_source at 1. rewrite Hpath. now rewrite IH.
Qed.

Lemma sources_spec_paths (results : list SearchResult) :
  Forall (fun s => src_path s <> EmptyString) (sources_spec results).
Proof.
  induction results as [|r results IH]; simpl; [constructor|].
  destruct (path r) as [|c p] eqn:Hpath; [exact IH|].
  constructor; [simpl; discriminate | exact IH].
Qed.

(** C8: the sources of a 200 response are the search results of the
    request that have a non-empty path, in the order received, each
    reduced to its title and its path. *)
Theorem response_sources (env : Env) (body : Body) (t : Store)
    (msg id : string) (srcs : list Source) :
  response (chatHandler env body t)
  = {| status := 200; payload := ChatPayload msg id srcs |} ->
  exists (userMessage : string) (results : list SearchResult),
    messages body = Some userMessage
    /\ searchNearDocs (index_search env) userMessage = Some results
    /\ srcs = sources_spec results
    /\ srcs
       = map (fun r => {| src_title := title r; src_path := path r |})
           (filter (fun r => negb (path r =? EmptyString)%string) results)
    /\ Forall (fun s => src_path s <> EmptyString) srcs.
Proof.
  intros Hresp.
  destruct (chatHandler_ok env body t msg id srcs Hresp)
    as [u [client [rs [blocks
          [Hu [_ [_ [Hsearch [_ [_ [_ [Hsrcs _]]]]]]]]]]]].
  exists u, rs. split; [exact Hu|]. split; [exact Hsearch|].
  split; [now rewrite Hsrcs, build_sources_spec|].
  split; [exact Hsrcs|].
  rewrite Hsrcs, build_sources_spec. apply sources_spec_paths.
Qed.

Lemma response_sources_witness :
  exists (userMessage : string) (results : list SearchResult),
    messages Sample.new_body = Some userMessage
    /\ searchNearDocs (index_search Sample.search_env) userMessage
       = Some results
    /\ [ {| src_title := "Long"%string; src_path := "/long"%string |} ]
       = sources_spec results
    /\ [ {| src_title := "Long"%string; src_path := "/long"%string |} ]
       = map (fun r => {| src_title := title r; src_path := path r |})
           (filter (fun r => negb (path r =? EmptyString)%string) results)
    /\ Forall (fun s => src_path s <> EmptyString)
         [ {| src_title := "Long"%string; src_path := "/long"%string |} ].
Proof.
  apply (response_sources Sample.search_env Sample.new_body
           (JsMap.empty ThreadData) "ok" "fresh").
  vm_compute. reflexivity.
Defined.

End Sources.

(** ** Every response of the handler *)

Section Responses.

(** The responses to a body that is an object. *)
Lemma object_body_responses (env : Env) (body : Body) (t : Store) :
  (Js.truthy_opt (messages body) = false
   /\ response (chatHandler env body t)
      = {| status := 400; payload := ErrorPayload MESSAGE_REQUIRED |})
  \/ (Js.truthy_opt (messages body) = true
      /\ anthropic env = None
      /\ response (chatHandler env body t)
         = {| status := 500; payload := ErrorPayload NOT_CONFIGURED |})
  \/ (Js.truthy_opt (messages body) = true
      /\ anthropic env <> None
      /\ response (chatHandler env body t)
         = {| status := 500; payload := ErrorPayload FAILED |}
      /\ In ConsoleError (events (chatHandler env body t)))
  \/ (Js.truthy_opt (messages body) = true
      /\ anthropic env <> None
      /\ exists (msg id : string) (srcs : list Source),
           response (chatHandler env body t)
           = {| status := 200; payload := ChatPayload msg id srcs |}).
Proof.
  unfold chatHandler.
  destruct (messages body) as [userMessage|]; [|now left].
  simpl. destruct (Js.truthy userMessage); simpl; [|now left].
  destruct (anthropic env) as [client|]; [|right; left; auto].
  right. right.
  destruct (searchNearDocs (index_search env) userMessage)
    as [searchResults|].
  - destruct (resolve_history (threadId body) (now_access env) t) as [h t1].
    destruct (client (user_content h searchResults userMessage))
      as [blocks|]; simpl.
    + right. repeat split; try discriminate. eauto.
    + left. repeat split; try discriminate. simpl. tauto.
  - left. repeat split; try discriminate. simpl. tauto.
Qed.

(** X1: The response the handler sends, once the calls it awaits have
    settled, is of one of five kinds, each with a fixed status and, for the
    errors, a fixed message: 500 with the generic message when no body was
    parsed; 400 when the body has no message; 500 for a missing API key
    when it has one; 500 with the generic message when a call rejected;
    200 with the chat payload. *)
Theorem response_classification (env : Env) (req_body : option Body)
    (t : Store) :
  (req_body = None
   /\ response (chatHandler_req env req_body t)
      = {| status := 500;
           payload := ErrorPayload "Failed to process chat request" |}
   /\ In ConsoleError (events (chatHandler_req env req_body t)))
  \/ exists (body : Body),
       req_body = Some body
       /\ ((Js.truthy_opt (messages body) = false
            /\ response (chatHandler_req env req_body t)
               = {| status := 400;
                    payload := ErrorPayload "Message is required" |})
           \/ (Js.truthy_opt (messages body) = true
               /\ anthropic env = None
               /\ response (chatHandler_req env req_body t)
                  = {| status := 500;
                       payload :=
                         ErrorPayload "Anthropic API key not configured" |})
           \/ (Js.truthy_opt (messages body) = true
               /\ anthropic env <> None
               /\ response (chatHandler_req env req_body t)
                  = {| status := 500;
                       payload :=
                         ErrorPayload "Failed to process chat request" |}
               /\ In ConsoleError (events (chatHandler_req env req_body t)))
           \/ (Js.truthy_opt (messages body) = true
               /\ anthropic env <> None
               /\ exists (msg id : string) (srcs : list Source),
                    response (chatHandler_req env req_body t)
                    = {| status := 200;
                         payload := ChatPayload msg id srcs |})).
Proof.
  destruct req_body as [body|]; cbn [chatHandler_req].
  - right. exists body. split; [reflexivity|].
    exact (object_body_responses env body t).
  - left. split; [reflexivity|]. split; [reflexivity|]. now left.
Qed.

(** X2: The model is called only after the search has answered, once, with
    the history block, the search block and the raw message; the search is
    always asked the raw message. *)
Theorem model_called_after_search (env : Env) (body : Body) (t : Store)
    (c : string) :
  In (ModelCall c) (events (chatHandler env body t)) ->
  exists (userMessage : string) (results : list SearchResult)
         (rest : list Event),
    messages body = Some userMessage
    /\ searchNearDocs (index_search env) userMessage = Some results
    /\ c = (buildHistoryContext
              (fst (resolve_history (threadId body) (now_access env) t))
            ++ buildSearchContext results ++ nl ++ nl ++ userMessage)%string
    /\ events (chatHandler env body t)
       = SearchCall userMessage :: ModelCall c :: rest
    /\ (forall (c' : string), ~ In (ModelCall c') rest)
    /\ (forall (q : string), ~ In (SearchCall q) rest).
Proof.
  unfold chatHandler.
  destruct (messages body) as [userMessage|]; [|intros []].
  destruct (Js.truthy userMessage); simpl; [|intros []].
  destruct (anthropic env) as [client|]; [|intros []].
  destruct (searchNearDocs (index_search env) userMessage)
    as [searchResults|] eqn:Hsearch.
  - destruct (resolve_history (threadId body) (now_access env) t) as [h t1].
    destruct (client (user_content h searchResults userMessage))
      as [blocks|]; simpl;
      (intros [Hin|[Hin|[Hin|[]]]]; try discriminate; injection Hin as <-;
       eexists; eexists; eexists;
       repeat split; try reflexivity;
       [ exact Hsearch
       | intros c' [E|[]]; discriminate
       | intros q [E|[]]; discriminate ]).
  - simpl. intros [Hin|[Hin|[]]]; discriminate.
Qed.

Lemma model_called_after_search_witness :
  exists (userMessage : string) (results : list SearchResult)
         (rest : list Event),
    messages Sample.late_body = Some userMessage
    /\ searchNearDocs (index_search Sample.late_env) userMessage
       = Some results
    /\ events (chatHandler Sample.late_env Sample.late_body Sample.old_store)
       = SearchCall userMessage
         :: ModelCall
              (buildHistoryContext (turn_entries "hi" "hello")
               ++ buildSearchContext [] ++ nl ++ nl ++ "again")%string
         :: rest.
Proof.
  destruct (model_called_after_search Sample.late_env Sample.late_body
              Sample.old_store
              (buildHistoryContext (turn_entries "hi" "hello")
               ++ buildSearchContext [] ++ nl ++ nl ++ "again")%string)
    as [u [rs [rest [Hu [Hs [_ [He _]]]]]]].
  - vm_compute. right. left. reflexivity.
  - exists u, rs, rest. repeat split; assumption.
Defined.

End Responses.

(** ** Requests that do not succeed, and the access they make *)

Section Access.

Lemma resolve_history_keys (tid : option string) (now : Z) (t : Store) :
  JsMap.keys (snd (resolve_history tid now t)) = JsMap.keys t.
Proof.
  destruct (resolve_history_cases tid now t)
    as [->|[id [th [_ [Hget ->]]]]]; [reflexivity|].
  apply keys_set_present. congruence.
Qed.

Lemma resolve_history_others (tid : option string) (now : Z) (t : Store)
    (k : string) :
  tid <> Some k ->
  JsMap.get k (snd (resolve_history tid now t)) = JsMap.get k t.
Proof.
  intros Hne. unfold resolve_history, JsMap.has.
  destruct tid as [id|]; [|reflexivity].
  destruct (Js.truthy id); [|reflexivity].
  destruct (JsMap.get id t) as [th|]; [|reflexivity].
  simpl. apply get_set_other. congruence.
Qed.

(** The store after a request that was not answered 200. *)
Lemma failed_request_store (env : Env) (body : Body) (t : Store) :
  status (response (chatHandler env body t)) <> 200 ->
  threads_after (chatHandler env body t) = t
  \/ (threads_after (chatHandler env body t)
      = snd (resolve_history (threadId body) (now_access env) t)
      /\ exists (c : string),
           In (ModelCall c) (events (chatHandler env body t))).
Proof.
  unfold chatHandler.
  destruct (messages body) as [userMessage|]; [|now left].
  destruct (Js.truthy userMessage); simpl; [|now left].
  destruct (anthropic env) as [client|]; [|now left].
  destruct (searchNearDocs (index_search env) userMessage)
    as [searchResults|]; [|now left].
  destruct (resolve_history (threadId body) (now_access env) t) as [h t1].
  destruct (client (user_content h searchResults userMessage))
    as [blocks|]; simpl.
  - intros H. now elim H.
  - intros _. right. split; [reflexivity|].
    eexists. right. left. reflexivity.
Qed.

(** X3: A request that is not answered 200 creates, removes and reorders no
    session and changes no history; it changes the store at all only if
    the model was called, and then only the record of the supplied id. *)
Theorem failed_request_keeps_sessions (env : Env) (body : Body) (t : Store) :
  status (response (chatHandler env body t)) <> 200 ->
  JsMap.keys (threads_after (chatHandler env body t)) = JsMap.keys t
  /\ (forall (k : string),
        option_map entries
          (JsMap.get k (threads_after (chatHandler env body t)))
        = option_map entries (JsMap.get k t))
  /\ (forall (k : string),
        threadId body <> Some k ->
        JsMap.get k (threads_after (chatHandler env body t)) = JsMap.get k t)
  /\ (threads_after (chatHandler env body t) <> t ->
      exists (c : string),
        In (ModelCall c) (events (chatHandler env body t))).
Proof.
  intros Hfail.
  destruct (failed_request_store env body t Hfail) as [->|[-> Hcall]].
  - repeat split; auto. intros H. now elim H.
  - split; [apply resolve_history_keys|].
    split; [intros k; apply resolve_history_entries|].
    split; [intros k; apply resolve_history_others|].
    intros _. exact Hcall.
Qed.

Lemma failed_request_keeps_sessions_witness :
  JsMap.keys
    (threads_after
       (chatHandler SampleMore.failing_env Sample.late_body Sample.old_store))
  = ["s1"%string]
  /\ option_map entries
       (JsMap.get "s1"%string
          (threads_after
             (chatHandler SampleMore.failing_env Sample.late_body
                Sample.old_store)))
     = Some (turn_entries "hi" "hello").
Proof.
  destruct (failed_request_keeps_sessions SampleMore.failing_env
              Sample.late_body Sample.old_store) as [Hkeys [Hentries _]].
  - vm_compute. discriminate.
  - split; [exact Hkeys | exact (Hentries "s1"%string)].
Defined.

(** X4: Reading a session refreshes it where it stands: for the time-to-live
    counted from the access no sweep removes it, however old it was. *)
Theorem access_postpones_expiry (t : Store) (id : string)
    (thread : ThreadData) (n now : Z) :
  JsMap.wf t ->
  id <> EmptyString ->
  JsMap.get id t = Some thread ->
  (now - n <= THREAD_TTL_MS)%Z ->
  fst (resolve_history (Some id) n t) = entries thread
  /\ JsMap.keys (snd (resolve_history (Some id) n t)) = JsMap.keys t
  /\ JsMap.get id
       (snd (cleanExpiredThreads now (snd (resolve_history (Some id) n t))))
     = Some {| entries := entries thread; lastAccess := n |}.
Proof.
  intros Hwf Hid Hget Hage.
  apply truthy_true in Hid.
  split; [now rewrite (resolve_history_present id n t thread)|].
  split; [apply resolve_history_keys|].
  rewrite (resolve_history_present id n t thread) by assumption.
  cbn [snd]. rewrite get_sweep by now apply wf_set.
  rewrite get_set_same. unfold expired. cbn [lastAccess].
  destruct (Z.gtb_spec (now - n) THREAD_TTL_MS); [lia | reflexivity].
Qed.

Lemma access_postpones_expiry_witness :
  JsMap.get "s1"%string
    (snd (cleanExpiredThreads 3600001
            (snd (resolve_history (Some "s1"%string) 1800001
                    Sample.old_store))))
  = Some {| entries := turn_entries "hi" "hello"; lastAccess := 1800001 |}.
Proof.
  refine (proj2 (proj2 (access_postpones_expiry Sample.old_store "s1"%string
                          Sample.old_thread 1800001 3600001 _ _ eq_refl _))).
  - unfold JsMap.wf. simpl. repeat constructor. intros [].
  - discriminate.
  - vm_compute. discriminate.
Defined.



(** Both outcomes on one store: the model call rejected, and resolved. *)
Example refreshed_at_access_or_write :
  option_map lastAccess
    (JsMap.get "s1"%string
       (threads_after
          (chatHandler SampleMore.failing_env Sample.late_body
             Sample.old_store)))
  = Some 1800001%Z
  /\ option_map lastAccess
       (JsMap.get "s1"%string
          (threads_after
             (chatHandler Sample.late_env Sample.late_body
                Sample.old_store)))
     = Some 1800003%Z.
Proof. split; reflexivity. Qed.

(** X6: The reply shown to the user is the text of the first text block,
    whatever stands before it and even when it is empty; without any text
    block it is the fixed fallback. *)
Theorem first_text_spec :
  (forall (before after : list ContentBlock) (t : string),
     no_text before ->
     first_text (before ++ TextBlock t :: after) = t)
  /\ (forall (blocks : list ContentBlock),
        no_text blocks -> first_text blocks = "No response generated."%string).
Proof.
  unfold no_text, first_text. split.
  - intros before after t. induction before as [|b before IH]; simpl.
    + reflexivity.
    + destruct b as [s|s]; simpl; [discriminate | exact IH].
  - intros blocks. induction blocks as [|b blocks IH]; simpl.
    + reflexivity.
    + destruct b as [s|s]; simpl; [discriminate | exact IH].
Qed.

Lemma first_text_spec_witness :
  first_text SampleMore.mixed_blocks = "first"%string
  /\ first_text [OtherBlock "tool_use"] = "No response generated."%string.
Proof.
  split.
  - exact (proj1 first_text_spec [OtherBlock "tool_use"]
             [TextBlock "second"] "first"%string eq_refl).
  - exact (proj2 first_text_spec [OtherBlock "tool_use"] eq_refl).
Defined.

End Access.

(** ** The shape of reachable stores and of a successful turn *)

Section Shape.

Lemma updated_entries_ends (history : list HistoryEntry) (u a : string) :
  updated_entries history u a = Js.slice_last 2 history ++ turn_entries u a.
Proof.
  unfold updated_entries.
  exact (slice_last_app_keep 2 history (turn_entries u a)).
Qed.

Lemma Forall_enforce_capacity (P : string * ThreadData -> Prop) (t : Store) :
  Forall P t -> Forall P (enforce_capacity t).
Proof.
  intros Hall. unfold enforce_capacity.
  destruct (MAX_THREADS <? JsMap.size t)%nat; [|exact Hall].
  destruct (JsMap.first_key t) as [k|]; [|exact Hall].
  destruct (Js.truthy k); [|exact Hall].
  apply Forall_forall. intros p Hin. apply filter_In in Hin.
  now apply (proj1 (Forall_forall _ _) Hall).
Qed.

Lemma ends_with_turn_step (t t' : Store) :
  store_inv t ->
  step t t' ->
  Forall (fun kv => ends_with_turn (entries (snd kv))) t ->
  Forall (fun kv => ends_with_turn (entries (snd kv))) t'.
Proof.
  intros Hinv Hstep Hall.
  destruct Hstep as [now t|tid now t|tid h u a mint put t].
  - rewrite sweep_filter by now destruct Hinv.
    apply Forall_forall. intros p Hin. apply filter_In in Hin.
    now apply (proj1 (Forall_forall _ _) Hall).
  - destruct (resolve_history_cases tid now t)
      as [->|[id [th [_ [Hget ->]]]]]; [exact Hall|].
    apply Forall_set; [exact Hall|].
    apply get_some_in in Hget.
    exact (proj1 (Forall_forall _ _) Hall _ Hget).
  - apply Forall_enforce_capacity. apply Forall_set; [exact Hall|].
    cbn [snd entries]. rewrite updated_entries_ends.
    now exists (Js.slice_last 2 h), u, a.
Qed.

Lemma reachable_ends_with_turn (t : Store) :
  reachable t -> Forall (fun kv => ends_with_turn (entries (snd kv))) t.
Proof.
  induction 1 as [|t t' Hr IH Hstep]; [constructor|].
  exact (ends_with_turn_step t t' (reachable_inv t Hr) Hstep IH).
Qed.

(** X7: Whatever requests and sweeps have run, in whatever interleaving, the
    store holds at most 100 sessions under distinct non-empty ids, and
    every stored history has two to four entries, the last two being a
    user message and the reply to it. *)
Theorem reachable_store_shape (t : Store) :
  reachable t ->
  JsMap.size t <= 100
  /\ NoDup (JsMap.keys t)
  /\ (forall (id : string) (thread : ThreadData),
        JsMap.get id t = Some thread ->
        id <> EmptyString
        /\ 2 <= List.length (entries thread) <= 4
        /\ exists (older : list HistoryEntry) (u a : string),
             entries thread
             = older ++ [ {| role := user; text := u |};
                          {| role := assistant; text := a |} ]).
Proof.
  intros Hr. destruct (reachable_inv t Hr) as [Hwf Hok Hsz].
  split; [exact Hsz|]. split; [exact Hwf|].
  intros id thread Hget. apply get_some_in in Hget.
  destruct (proj1 (Forall_forall _ _) Hok _ Hget) as [Hid Hlen].
  pose proof (proj1 (Forall_forall _ _) (reachable_ends_with_turn t Hr)
                _ Hget) as [older [u [a Hends]]].
  cbn [fst snd] in *.
  split; [now apply truthy_true|].
  split; [|now exists older, u, a].
  split; [|exact Hlen].
  rewrite Hends, length_app. simpl. lia.
Qed.

Lemma reachable_store_shape_witness :
  JsMap.size Sample.three_turns <= 100
  /\ NoDup (JsMap.keys Sample.three_turns).
Proof.
  refine (let H := reachable_store_shape Sample.three_turns _ in
          conj (proj1 H) (proj1 (proj2 H))).
  apply chatHandler_reachable, chatHandler_reachable, chatHandler_reachable.
  apply reach_init.
Defined.

(** X8: What a successful turn stores under the id it answers with is what a
    later request with that id reads: the turn just made, after the two
    most recent entries it had read itself.  The record is stamped with the
    time of the write, and sweeps spare it for exactly the time-to-live
    counted from there. *)
Theorem turn_then_read (env : Env) (body : Body) (t : Store)
    (userMessage msg id : string) (srcs : list Source) :
  reachable t ->
  messages body = Some userMessage ->
  response (chatHandler env body t)
  = {| status := 200; payload := ChatPayload msg id srcs |} ->
  (forall (n : Z),
     fst (resolve_history (Some id) n (threads_after (chatHandler env body t)))
     = Js.slice_last 2
         (fst (resolve_history (threadId body) (now_access env) t))
       ++ [ {| role := user; text := userMessage |};
            {| role := assistant; text := msg |} ])
  /\ (forall (now : Z),
        (now - now_put env <= THREAD_TTL_MS)%Z ->
        option_map lastAccess
          (JsMap.get id
             (snd (cleanExpiredThreads now
                     (threads_after (chatHandler env body t)))))
        = Some (now_put env))
  /\ (forall (now : Z),
        (now - now_put env > THREAD_TTL_MS)%Z ->
        JsMap.get id
          (snd (cleanExpiredThreads now
                  (threads_after (chatHandler env body t))))
        = None).
Proof.
  intros Hr Hmsg Hresp.
  pose proof (stored_after_turn env body t userMessage msg id srcs
                Hr Hmsg Hresp) as Hget.
  assert (Hwf : JsMap.wf (threads_after (chatHandler env body t))).
  { now destruct (reachable_inv _ (chatHandler_reachable env body t Hr)). }
  assert (Hid : Js.truthy id = true).
  { destruct (chatHandler_ok env body t msg id srcs Hresp)
      as [? [? [? [? [_ [_ [_ [_ [_ [_ [-> _]]]]]]]]]]].
    apply mint_thread_id_truthy. }
  split; [|split].
  - intros n.
    rewrite (resolve_history_present id n _ _ Hid Hget). cbn [fst entries].
    apply updated_entries_ends.
  - intros now Hage. rewrite get_sweep by exact Hwf. rewrite Hget.
    unfold expired. cbn [lastAccess].
    destruct (Z.gtb_spec (now - now_put env) THREAD_TTL_MS);
      [lia | reflexivity].
  - intros now Hage. rewrite get_sweep by exact Hwf. rewrite Hget.
    unfold expired. cbn [lastAccess].
    destruct (Z.gtb_spec (now - now_put env) THREAD_TTL_MS);
      [reflexivity | lia].
Qed.

Lemma turn_then_read_witness :
  fst (resolve_history (Some "s1"%string) 1900000
         (threads_after
            (chatHandler Sample.late_env Sample.late_body Sample.old_store)))
  = Js.slice_last 2
      (fst (resolve_history (threadId Sample.late_body)
              (now_access Sample.late_env) Sample.old_store))
    ++ [ {| role := user; text := "again" |};
         {| role := assistant; text := "ok" |} ].
Proof.
  exact (proj1 (turn_then_read Sample.late_env Sample.late_body
                  Sample.old_store "again" "ok" "s1" []
                  sample_old_store_reachable eq_refl eq_refl) 1900000%Z).
Defined.

(** X9: Where a successful turn leaves the sessions in iteration order: a
    session that existed keeps its place and nothing is evicted; a new
    session goes last, and it pushes out the first session exactly when
    the store was full. *)
Theorem keys_after_turn (env : Env) (body : Body) (t : Store)
    (msg id : string) (srcs : list Source) :
  reachable t ->
  response (chatHandler env body t)
  = {| status := 200; payload := ChatPayload msg id srcs |} ->
  (JsMap.get id t <> None ->
   JsMap.keys (threads_after (chatHandler env body t)) = JsMap.keys t)
  /\ (JsMap.get id t = None ->
      JsMap.size t < 100 ->
      JsMap.keys (threads_after (chatHandler env body t))
      = JsMap.keys t ++ [id])
  /\ (JsMap.get id t = None ->
      JsMap.size t = 100 ->
      JsMap.keys (threads_after (chatHandler env body t))
      = tl (JsMap.keys t) ++ [id]).
Proof.
  intros Hr Hresp.
  destruct (chatHandler_ok env body t msg id srcs Hresp)
    as [u [client [rs [blocks
          [Hu [_ [_ [_ [_ [_ [Hid [_ [Hafter _]]]]]]]]]]]]].
  rewrite Hafter. clear Hafter.
  set (t1 := snd (resolve_history (threadId body) (now_access env) t)).
  set (es := updated_entries _ u msg).
  assert (Hinv1 : store_inv t1)
    by (apply store_inv_access; now apply reachable_inv).
  destruct Hinv1 as [Hwf1 Hok1 Hsz1].
  assert (Hkeys1 : JsMap.keys t1 = JsMap.keys t)
    by apply resolve_history_keys.
  assert (Hsize1 : JsMap.size t1 = JsMap.size t)
    by apply resolve_history_size.
  assert (Hget1 : JsMap.get id t1 = None <-> JsMap.get id t = None).
  { pose proof (resolve_history_entries (threadId body) (now_access env) t id)
      as E. fold t1 in E.
    destruct (JsMap.get id t1), (JsMap.get id t); simpl in E;
      split; congruence. }
  assert (Hok2 : Forall thread_ok (put_thread id es (now_put env) t1)).
  { apply Forall_set; [exact Hok1|]. split; cbn [fst snd entries].
    - rewrite Hid. apply mint_thread_id_truthy.
    - apply updated_entries_length. }
  rewrite enforce_capacity_tail; [|now apply wf_set | exact Hok2].
  unfold put_thread. change MAX_THREADS with 100 in *.
  split; [|split].
  - intros Hpresent.
    assert (Hp1 : JsMap.get id t1 <> None) by (rewrite Hget1; exact Hpresent).
    rewrite size_set_present by exact Hp1.
    destruct (Nat.ltb_spec 100 (JsMap.size t1)); [lia|].
    now rewrite keys_set_present.
  - intros Habsent Hroom. apply Hget1 in Habsent.
    rewrite size_set_absent by exact Habsent.
    destruct (Nat.ltb_spec 100 (S (JsMap.size t1))); [lia|].
    rewrite set_absent by exact Habsent.
    unfold JsMap.keys in *. rewrite map_app, Hkeys1. reflexivity.
  - intros Habsent Hfull. apply Hget1 in Habsent.
    rewrite size_set_absent by exact Habsent.
    destruct (Nat.ltb_spec 100 (S (JsMap.size t1))); [|lia].
    rewrite set_absent by exact Habsent.
    unfold JsMap.keys in *. rewrite <- Hkeys1.
    destruct t1 as [|p t1]; [unfold JsMap.size in *; simpl in *; lia|].
    simpl. now rewrite map_app.
Qed.

Lemma keys_after_turn_witness :
  JsMap.keys
    (threads_after
       (chatHandler Sample.late_env Sample.late_body Sample.old_store))
  = JsMap.keys Sample.old_store.
Proof.
  refine (proj1 (keys_after_turn Sample.late_env Sample.late_body
                   Sample.old_store "ok" "s1" []
                   sample_old_store_reachable eq_refl) _).
  discriminate.
Defined.

End Shape.

(** ** Thread ids *)

Section ThreadIds.

Lemma string_of_uint_digits (d : Decimal.uint) :
  all_digits (NilEmpty.string_of_uint d) = true.
Proof. induction d; simpl; auto. Qed.

Lemma num_to_string_digits (z : Z) :
  (0 <= z)%Z ->
  all_digits (Js.num_to_string z) = true
  /\ Js.num_to_string z <> EmptyString.
Proof.
  intros Hz. unfold Js.num_to_string.
  destruct z as [|p|p]; [split; [reflexivity | discriminate] | | lia].
  cbn [Z.to_int NilZero.string_of_int].
  pose proof (DecimalPos.Unsigned.to_uint_nonnil p) as Hnil.
  unfold NilZero.string_of_uint.
  destruct (Pos.to_uint p) eqn:E; try congruence;
    (split; [rewrite <- E; apply string_of_uint_digits
            | rewrite <- E; rewrite E; discriminate]).
Qed.

Lemma num_to_string_inj (a b : Z) :
  Js.num_to_string a = Js.num_to_string b -> a = b.
Proof.
  unfold Js.num_to_string. intros H.
  apply DecimalZ.to_int_inj.
  assert (Hnorm : forall z,
            NilZero.int_of_string (NilZero.string_of_int (Z.to_int z))
            = Some (Z.to_int z)).
  { intros z. apply NilZero.isi.
    - destruct z; simpl; try discriminate.
      intros [= E]. now apply (DecimalPos.Unsigned.to_uint_nonnil p).
    - destruct z; simpl; try discriminate.
      intros [= E]. now apply (DecimalPos.Unsigned.to_uint_nonnil p). }
  pose proof (Hnorm a) as Ha. rewrite H, Hnorm in Ha. congruence.
Qed.

(** X10: The thread id of a 200 response is the supplied one when that is a
    non-empty string; otherwise it is [thread_] followed by the decimal
    digits of the clock reading, never a bare prefix. *)
Theorem response_thread_id (env : Env) (body : Body) (t : Store)
    (msg id : string) (srcs : list Source) :
  response (chatHandler env body t)
  = {| status := 200; payload := ChatPayload msg id srcs |} ->
  (forall (supplied : string),
     threadId body = Some supplied -> supplied <> EmptyString ->
     id = supplied)
  /\ (Js.truthy_opt (threadId body) = false ->
      (0 <= now_mint env)%Z ->
      exists (digits : string),
        id = ("thread_" ++ digits)%string
        /\ digits <> EmptyString
        /\ all_digits digits = true).
Proof.
  intros Hresp.
  destruct (chatHandler_ok env body t msg id srcs Hresp)
    as [u [client [rs [blocks [_ [_ [_ [_ [_ [_ [Hid _]]]]]]]]]]].
  rewrite Hid. unfold mint_thread_id. split.
  - intros supplied -> Hne. apply truthy_true in Hne. now rewrite Hne.
  - intros Hfalsy Hnow.
    destruct (num_to_string_digits (now_mint env) Hnow) as [Hd Hne].
    exists (Js.num_to_string (now_mint env)).
    destruct (threadId body) as [s|]; [simpl in Hfalsy; rewrite Hfalsy|];
      auto.
Qed.

Lemma response_thread_id_witness :
  exists (digits : string),
    "thread_1800002"%string = ("thread_" ++ digits)%string
    /\ digits <> EmptyString
    /\ all_digits digits = true.
Proof.
  refine (proj2 (response_thread_id Sample.late_env
                   SampleMore.anonymous_body (JsMap.empty ThreadData)
                   "ok" "thread_1800002" [] eq_refl) eq_refl _).
  vm_compute. discriminate.
Defined.

(** X11: Two requests without a thread id are given the same id exactly when
    they read the same millisecond. *)
Theorem minted_id_injective (tid1 tid2 : option string) (n1 n2 : Z) :
  Js.truthy_opt tid1 = false ->
  Js.truthy_opt tid2 = false ->
  (mint_thread_id tid1 n1 = mint_thread_id tid2 n2 <-> n1 = n2).
Proof.
  intros H1 H2.
  assert (E : forall tid n,
            Js.truthy_opt tid = false ->
            mint_thread_id tid n = ("thread_" ++ Js.num_to_string n)%string).
  { intros [s|] n Hf; unfold mint_thread_id; [|reflexivity].
    simpl in Hf. now rewrite Hf. }
  rewrite (E tid1 n1 H1), (E tid2 n2 H2). split.
  - intros H. simpl in H. injection H as H. now apply num_to_string_inj.
  - now intros ->.
Qed.

Lemma minted_id_injective_witness :
  mint_thread_id None 1800002 = mint_thread_id (Some EmptyString) 1800002.
Proof.
  exact (proj2 (minted_id_injective None (Some EmptyString) 1800002 1800002
                  eq_refl eq_refl) eq_refl).
Defined.

(** X12: A request without a thread id never reads a stored history: whatever
    the store held under the id it is given, that session is left with the
    two entries of this turn alone. *)
Theorem minted_id_overwrites (env : Env) (body : Body) (t : Store)
    (userMessage msg id : string) (srcs : list Source) :
  reachable t ->
  messages body = Some userMessage ->
  Js.truthy_opt (threadId body) = false ->
  response (chatHandler env body t)
  = {| status := 200; payload := ChatPayload msg id srcs |} ->
  JsMap.get id (threads_after (chatHandler env body t))
  = Some {| entries := [ {| role := user; text := userMessage |};
                         {| role := assistant; text := msg |} ];
            lastAccess := now_put env |}.
Proof.
  intros Hr Hmsg Hfalsy Hresp.
  rewrite (stored_after_turn env body t userMessage msg id srcs Hr Hmsg Hresp).
  assert (Hnone :
    fst (resolve_history (threadId body) (now_access env) t) = []).
  { unfold resolve_history. destruct (threadId body) as [s|]; [|reflexivity].
    simpl in Hfalsy. now rewrite Hfalsy. }
  now rewrite Hnone.
Qed.

Lemma minted_id_overwrites_witness :
  JsMap.get "thread_1800002"%string
    (threads_after
       (chatHandler Sample.late_env SampleMore.anonymous_body
          SampleMore.clash_store))
  = Some {| entries := [ {| role := user; text := "again" |};
                         {| role := assistant; text := "ok" |} ];
            lastAccess := 1800003 |}
  /\ JsMap.get "thread_1800002"%string SampleMore.clash_store
     = Some Sample.old_thread.
Proof.
  split; [|reflexivity].
  refine (minted_id_overwrites Sample.late_env SampleMore.anonymous_body
            SampleMore.clash_store "again" "ok" "thread_1800002" []
            _ eq_refl eq_refl eq_refl).
  apply reach_step with (t := JsMap.empty ThreadData); [apply reach_init|].
  exact (step_persist None [] "hi" "hello" 1800002 0
           (JsMap.empty ThreadData)).
Defined.

End ThreadIds.

(** ** The size and content of the history block *)

Section HistoryBlockSize.

Lemma str_length_append (a b : string) :
  String.length (a ++ b)%string = String.length a + String.length b.
Proof. induction a as [|c a IH]; simpl; [reflexivity | now rewrite IH]. Qed.

Lemma history_line_length (entry : HistoryEntry) :
  String.length (history_line entry) <= 211.
Proof.
  unfold history_line. rewrite !str_length_append, str_slice0_length.
  unfold MAX_HISTORY_CHAR. change (String.length ": ") with 2.
  destruct (role entry); cbn [role_to_string].
  - change (String.length "user") with 4. lia.
  - change (String.length "assistant") with 9. lia.
Qed.

Lemma join_length_le (m : nat) (lines : list string) :
  Forall (fun l => String.length l <= m) lines ->
  String.length (Js.join nl lines) + 1 <= Nat.max 1 (List.length lines * (m + 1)).
Proof.
  unfold Js.join.
  induction 1 as [|l lines Hl Hall IH];
    [cbn [String.concat String.length List.length]; lia|].
  destruct lines as [|l' lines].
  - cbn [String.concat List.length]. lia.
  - change (String.concat nl (l :: l' :: lines))
      with (l ++ nl ++ String.concat nl (l' :: lines))%string.
    rewrite !str_length_append. cbn [List.length] in *.
    change (String.length nl) with 1.
    rewrite !Nat.mul_succ_l in *. lia.
Qed.

(** X13: However long the stored texts are, the history block sent to the model
    never exceeds 896 characters. *)
Theorem history_block_bounded (history : list HistoryEntry) :
  String.length (buildHistoryContext history) <= 896.
Proof.
  unfold buildHistoryContext.
  destruct (List.length history =? 0)%nat; [simpl; lia|].
  set (recent := Js.slice_last MAX_HISTORY_ENTRIES history).
  assert (Hlen : List.length (map history_line recent) <= 4).
  { rewrite length_map. unfold recent. rewrite slice_last_length.
    unfold MAX_HISTORY_ENTRIES. lia. }
  assert (Hall : Forall (fun l => String.length l <= 211)
                   (map history_line recent)).
  { apply Forall_map. apply Forall_forall. intros e _.
    apply history_line_length. }
  pose proof (join_length_le 211 _ Hall) as Hjoin.
  rewrite !str_length_append.
  change (String.length nl) with 1.
  change (String.length "<conversation_history>") with 22.
  change (String.length "</conversation_history>") with 23.
  nia.
Qed.

(** The bound is met by four long entries of the assistant. *)
Example history_block_bound_met :
  String.length
    (buildHistoryContext
       (repeat {| role := assistant; text := Sample.xs 250 |} 4))
  = 896.
Proof. vm_compute. reflexivity. Qed.

(** X14: For a stored session nothing is left out of the block but the tails
    of long texts: it has one line for every stored entry. *)
Theorem stored_history_fully_shown (t : Store) (id : string)
    (thread : ThreadData) :
  reachable t ->
  JsMap.get id t = Some thread ->
  buildHistoryContext (entries thread)
  = ("<conversation_history>" ++ nl
     ++ Js.join nl
          (map (fun e =>
                  role_to_string (role e) ++ ": "
                  ++ Js.str_slice0 200 (text e))%string
             (entries thread))
     ++ nl ++ "</conversation_history>" ++ nl ++ nl)%string.
Proof.
  intros Hr Hget.
  destruct (reachable_inv t Hr) as [_ Hok _].
  pose proof (proj1 (Forall_forall _ _) (reachable_ends_with_turn t Hr)
                _ (get_some_in _ _ _ _ Hget)) as [older [u [a Hends]]].
  destruct (proj1 (Forall_forall _ _) Hok _ (get_some_in _ _ _ _ Hget))
    as [_ Hlen].
  cbn [snd] in *. unfold buildHistoryContext.
  rewrite (slice_last_all MAX_HISTORY_ENTRIES (entries thread) Hlen).
  destruct (entries thread) as [|e es]; [|reflexivity].
  destruct older; discriminate.
Qed.

Lemma stored_history_fully_shown_witness :
  buildHistoryContext (entries Sample.old_thread)
  = ("<conversation_history>" ++ nl
     ++ Js.join nl
          (map (fun e =>
                  role_to_string (role e) ++ ": "
                  ++ Js.str_slice0 200 (text e))%string
             (entries Sample.old_thread))
     ++ nl ++ "</conversation_history>" ++ nl ++ nl)%string.
Proof.
  exact (stored_history_fully_shown Sample.old_store "s1"
           Sample.old_thread sample_old_store_reachable eq_refl).
Defined.

End HistoryBlockSize.

(** ** From hits to sources *)

Section HitsToSources.

Lemma or_default_nonempty (o : option string) (d : string) :
  d <> EmptyString -> or_default o d <> EmptyString.
Proof.
  intros Hd. unfold or_default. destruct o as [s|]; [|exact Hd].
  destruct (Js.truthy s) eqn:E; [now apply truthy_true | exact Hd].
Qed.

Lemma path_truthy_iff (h : Hit) :
  Js.truthy (path (hit_to_result h)) = Js.truthy_opt (hit_path h).
Proof.
  unfold hit_to_result. cbn [path]. unfold or_default, Js.truthy_opt.
  destruct (hit_path h) as [s|]; [|reflexivity].
  destruct (Js.truthy s) eqn:E; [exact E | reflexivity].
Qed.

Lemma build_sources_hits (hits : list Hit) :
  build_sources (map hit_to_result hits)
  = map hit_source (filter (fun h => Js.truthy_opt (hit_path h)) hits).
Proof.
  unfold build_sources.
  induction hits as [|h hits IH]; [reflexivity|].
  cbn [map filter]. rewrite path_truthy_iff.
  destruct (Js.truthy_opt (hit_path h)); cbn [map]; now rewrite IH.
Qed.

(** X15: The sources of a 200 response, read off the engine's hits: the engine
    is asked the message with limit 5; the hits with a non-empty path give
    the sources, in order; a source has the hit's path and its title, or
    [Untitled] for a hit without one, so neither is ever empty. *)
Theorem sources_from_hits (env : Env) (body : Body) (t : Store)
    (msg id : string) (srcs : list Source) :
  response (chatHandler env body t)
  = {| status := 200; payload := ChatPayload msg id srcs |} ->
  exists (userMessage : string) (hits : list Hit),
    messages body = Some userMessage
    /\ index_search env userMessage 5 = Some hits
    /\ srcs = map hit_source
                (filter (fun h => Js.truthy_opt (hit_path h)) hits)
    /\ List.length srcs <= List.length hits
    /\ Forall (fun s => src_title s <> EmptyString
                        /\ src_path s <> EmptyString) srcs.
Proof.
  intros Hresp.
  destruct (chatHandler_ok env body t msg id srcs Hresp)
    as [u [client [rs [blocks
          [Hu [_ [_ [Hsearch [_ [_ [_ [Hsrcs _]]]]]]]]]]]].
  unfold searchNearDocs in Hsearch.
  destruct (index_search env u 5) as [hits|] eqn:Hhits; [|discriminate].
  injection Hsearch as <-.
  exists u, hits. split; [exact Hu|]. split; [exact Hhits|].
  rewrite Hsrcs, build_sources_hits. split; [reflexivity|].
  split.
  - rewrite length_map. apply filter_length_le.
  - apply Forall_map. apply Forall_forall. intros h Hin.
    apply filter_In in Hin. destruct Hin as [_ Hpath].
    unfold hit_source. cbn [src_title src_path]. split.
    + apply or_default_nonempty. discriminate.
    + unfold or_default, Js.truthy_opt in *.
      destruct (hit_path h) as [s|]; [|discriminate].
      rewrite Hpath. now apply truthy_true.
Qed.

Lemma sources_from_hits_witness :
  exists (userMessage : string) (hits : list Hit),
    messages Sample.new_body = Some userMessage
    /\ index_search Sample.search_env userMessage 5 = Some hits
    /\ [ {| src_title := "Long"%string; src_path := "/long"%string |} ]
       = map hit_source
           (filter (fun h => Js.truthy_opt (hit_path h)) hits)
    /\ 1 <= List.length hits
    /\ Forall (fun s => src_title s <> EmptyString
                        /\ src_path s <> EmptyString)
         [ {| src_title := "Long"%string; src_path := "/long"%string |} ].
Proof.
  apply (sources_from_hits Sample.search_env Sample.new_body
           (JsMap.empty ThreadData) "ok" "fresh").
  vm_compute. reflexivity.
Defined.

End HitsToSources.

(** ** Sweeps in sequence *)

Section SweepSequence.

(** X16: A later sweep makes an earlier one redundant; in particular a sweep
    repeated at the same time changes nothing more. *)
Theorem sweep_twice (n1 n2 : Z) (t : Store) :
  JsMap.wf t ->
  (n1 <= n2)%Z ->
  snd (cleanExpiredThreads n2 (snd (cleanExpiredThreads n1 t)))
  = snd (cleanExpiredThreads n2 t).
Proof.
  intros Hwf Hle.
  rewrite (sweep_filter n1 t Hwf).
  rewrite !sweep_filter by (try apply wf_filter; exact Hwf).
  rewrite filter_filter. apply filter_ext. intros [k th].
  unfold fresh, expired. cbn [snd].
  destruct (Z.gtb_spec (n2 - lastAccess th) THREAD_TTL_MS);
    destruct (Z.gtb_spec (n1 - lastAccess th) THREAD_TTL_MS);
    simpl; try reflexivity; lia.
Qed.

Lemma sweep_twice_witness :
  snd (cleanExpiredThreads 1800001
         (snd (cleanExpiredThreads 1500000 Sample.mixed_store)))
  = snd (cleanExpiredThreads 1800001 Sample.mixed_store).
Proof.
  apply (sweep_twice 1500000 1800001 Sample.mixed_store).
  - exact sample_mixed_store_wf.
  - discriminate.
Defined.

End SweepSequence.
